(** * Expense reminder: the reminder engine, its recurrence generator and
      the expense routes that feed it

    Shallow embedding of
    - [scheduler/reminderScheduler.js] ([processReminders],
      [createNextRecurringExpense]),
    - [services/emailService.js] ([sendReminderEmail]),
    - [routes/expenses.js] ([router.post('/')], [router.put('/:id')]),
    - the [/api/pending-reminders] handler of the server file.

    Conventions of the model.
    - The [expenses] and [users] tables are lists of rows in insertion
      order; the SQL statements of the source are list functions over
      them.  Statements are total: a failing disk or connection is not
      modelled.
    - A date column holds a calendar date [YYYY-MM-DD]; it is a record
      of year, month and day, and SQL's text comparison of two such
      strings is the lexicographic comparison of the three fields.
    - The JavaScript [Date] object is a number of milliseconds since the
      epoch, with the day arithmetic of ECMAScript ([MakeDay],
      [LocalTime], [toISOString]).  The process time zone is a fixed
      offset, a parameter of the functions that read local fields; a
      zone that changes its offset over the year is not covered.
    - A sweep runs alone: no other request interleaves with it. *)

From Stdlib Require Import ZArith List Bool Lia String Ascii QArith.
From Stdlib Require Import Sorting.Sorted Sorting.Permutation.
Import ListNotations.

Local Open Scope Z_scope.

(** ** Calendar dates *)

Module Calendar.

Record Date := mkDate { year : Z; month : Z; day : Z }.

Definition date_eqb (a b : Date) : bool :=
  (year a =? year b) && (month a =? month b) && (day a =? day b).

(** Text order of two [YYYY-MM-DD] strings. *)
Definition date_leb (a b : Date) : bool :=
  if year a <? year b then true
  else if year b <? year a then false
  else if month a <? month b then true
  else if month b <? month a then false
  else day a <=? day b.

Definition date_ltb (a b : Date) : bool := negb (date_leb b a).

Definition leap (y : Z) : bool :=
  ((y mod 4 =? 0) && negb (y mod 100 =? 0)) || (y mod 400 =? 0).

Definition days_in_month (y m : Z) : Z :=
  if m =? 2 then (if leap y then 29 else 28)
  else if (m =? 4) || (m =? 6) || (m =? 9) || (m =? 11) then 30
  else 31.

(** A date that exists in the calendar. *)
Definition valid_date (d : Date) : bool :=
  (1 <=? month d) && (month d <=? 12) &&
  (1 <=? day d) && (day d <=? days_in_month (year d) (month d)).

(** Number of days from 1970-01-01 to the [d]-th day counted from the
    first of month [m] of year [y]; [d] may exceed the month's length,
    the count then runs on into the following month, which is what
    ECMAScript's [MakeDay] does. *)
Definition days_from_civil (y m d : Z) : Z :=
  let y' := if m <=? 2 then y - 1 else y in
  let era := y' / 400 in
  let yoe := y' - era * 400 in
  let mp := if 2 <? m then m - 3 else m + 9 in
  let doy := (153 * mp + 2) / 5 + d - 1 in
  let doe := yoe * 365 + yoe / 4 - yoe / 100 + doy in
  era * 146097 + doe - 719468.

(** The calendar date of a day number. *)
Definition civil_from_days (z : Z) : Date :=
  let z' := z + 719468 in
  let era := z' / 146097 in
  let doe := z' - era * 146097 in
  let yoe := (doe - doe / 1460 + doe / 36524 - doe / 146096) / 365 in
  let doy := doe - (365 * yoe + yoe / 4 - yoe / 100) in
  let mp := (5 * doy + 2) / 153 in
  let d := doy - (153 * mp + 2) / 5 + 1 in
  let m := if mp <? 10 then mp + 3 else mp - 9 in
  let y := yoe + era * 400 in
  mkDate (if m <=? 2 then y + 1 else y) m d.

End Calendar.
Import Calendar.

(** ** The JavaScript [Date] object *)

Module JSDate.

Definition msPerDay : Z := 86400000.
Definition msPerMinute : Z := 60000.

(** ECMAScript [Day(t)] and [TimeWithinDay(t)]. *)
Definition Day (t : Z) : Z := t / msPerDay.
Definition TimeWithinDay (t : Z) : Z := t mod msPerDay.

(** [new Date("YYYY-MM-DD")]: a date-only string is UTC midnight.  A day
    past the end of the month (accepted up to 31 by the engine's parser)
    runs on into the next month. *)
Definition parse (d : Date) : Z :=
  days_from_civil (year d) (month d) (day d) * msPerDay.

(** [toISOString().split('T')[0]]: the UTC calendar date. *)
Definition toISODate (t : Z) : Date := civil_from_days (Day t).

(** [LocalTime(t)] and [UTC(t)] for a zone [tz] minutes east of UTC. *)
Definition LocalTime (tz t : Z) : Z := t + tz * msPerMinute.
Definition UTC (tz t : Z) : Z := t - tz * msPerMinute.

(** [getMonth()], zero based, in local time. *)
Definition getMonth (tz t : Z) : Z :=
  month (civil_from_days (Day (LocalTime tz t))) - 1.

(** ECMAScript [MakeDay(year, month, date)] with a zero-based month that
    may be 12 or more. *)
Definition MakeDay (y m dt : Z) : Z :=
  let ym := y + m / 12 in
  let mn := m mod 12 in
  days_from_civil ym (mn + 1) 1 + dt - 1.

(** [setMonth(m)]: local year, date and time of day are kept, the month
    is replaced, and the result is converted back from local time.  The
    zone is one fixed offset [tz]; a zone with daylight saving converts
    back with the offset in force at the new local time, which this
    does not cover. *)
Definition setMonth (tz t m : Z) : Z :=
  let lt := LocalTime tz t in
  let c := civil_from_days (Day lt) in
  UTC tz (MakeDay (year c) m (day c) * msPerDay + TimeWithinDay lt).

End JSDate.

(** Adding one month the way the scheduler does:
    [const n = new Date(new Date(s)); n.setMonth(n.getMonth() + 1);
     n.toISOString().split('T')[0]]. *)
Definition next_month_date (tz : Z) (d : Date) : Date :=
  let current := JSDate.parse d in
  let next := JSDate.setMonth tz current (JSDate.getMonth tz current + 1) in
  JSDate.toISODate next.

(** ** The record store *)

(** A row of [expenses].  [recurring] is the text ['yes'] or ['no'],
    [email_sent] the integer flag the spec calls [notified].  [paid] and
    [paid_at] are nullable. *)
Record Expense := mkExpense {
  id : Z;
  user_id : Z;
  expense_name : string;
  amount : Q;
  category : string;
  due_date : Date;
  reminder_date : Date;
  recurring : string;
  email_sent : Z;
  paid : option Z;
  paid_at : option string
}.

(** A row of [users] (the credential hash plays no part here). *)
Record User := mkUser {
  u_id : Z;
  u_name : string;
  u_email : string
}.

(** The database: both tables in insertion order and the AUTOINCREMENT
    counter of [expenses] (the largest id ever handed out). *)
Record Store := mkStore {
  users : list User;
  expenses : list Expense;
  last_id : Z
}.

Definition set_email_sent (v : Z) (e : Expense) : Expense :=
  mkExpense (id e) (user_id e) (expense_name e) (amount e) (category e)
            (due_date e) (reminder_date e) (recurring e) v
            (paid e) (paid_at e).

Definition with_expenses (s : Store) (l : list Expense) : Store :=
  mkStore (users s) l (last_id s).

(** Largest id present in the table (0 for an empty table). *)
Definition max_id (l : list Expense) : Z :=
  fold_right (fun e m => Z.max (id e) m) 0 l.

(** The id an INSERT assigns: one more than the largest id that has ever
    existed in the table. *)
Definition fresh_id (s : Store) : Z :=
  Z.max (last_id s) (max_id (expenses s)) + 1.

(** [SELECT ... FROM expenses WHERE id = ?] through [get]: the first
    matching row or [null]. *)
Definition get_by_id (s : Store) (i : Z) : option Expense :=
  find (fun e => id e =? i) (expenses s).

(** [UPDATE expenses SET email_sent = 1 WHERE id = ?]. *)
Definition mark_sent (i : Z) (e : Expense) : Expense :=
  if id e =? i then set_email_sent 1 e else e.

Definition run_mark_sent (s : Store) (i : Z) : Store :=
  with_expenses s (map (mark_sent i) (expenses s)).

(** ORDER BY a date column, ascending: a stable insertion sort. *)
Section OrderBy.
Context {A : Type} (key : A -> Date).

Fixpoint insert_by (x : A) (l : list A) : list A :=
  match l with
  | [] => [x]
  | y :: t => if date_leb (key x) (key y) then x :: l
              else y :: insert_by x t
  end.

Definition order_by (l : list A) : list A :=
  fold_right insert_by [] l.

(** [x] comes no later than [y] in the order of the column. *)
Definition key_le (x y : A) : Prop := date_leb (key x) (key y) = true.
End OrderBy.

(** ** The due-set query of the sweep *)

(** A row of the sweep's SELECT. *)
Record Reminder := mkReminder {
  r_id : Z;
  r_expense_name : string;
  r_amount : Q;
  r_category : string;
  r_due_date : Date;
  r_reminder_date : Date;
  r_recurring : string;
  r_user_name : string;
  r_user_email : string
}.

Definition reminder_row (e : Expense) (u : User) : Reminder :=
  mkReminder (id e) (expense_name e) (amount e) (category e)
             (due_date e) (reminder_date e) (recurring e)
             (u_name u) (u_email u).

(** [WHERE e.reminder_date <= ? AND e.email_sent = 0]. *)
Definition is_due (today : Date) (e : Expense) : bool :=
  date_leb (reminder_date e) today && (email_sent e =? 0).

(** [FROM expenses e JOIN users u ON e.user_id = u.id]: the users that
    match one expense. *)
Definition owners (s : Store) (e : Expense) : list User :=
  filter (fun u => user_id e =? u_id u) (users s).

Definition due_rows (s : Store) (today : Date) : list Reminder :=
  flat_map (fun e => if is_due today e
                     then map (reminder_row e) (owners s e) else [])
           (expenses s).

Definition pendingReminders (s : Store) (today : Date) : list Reminder :=
  order_by r_due_date (due_rows s today).

(** ** The notifier as the sweep sees it *)

(** How an awaited call ends. *)
Inductive Completion (A : Type) : Type :=
| Returned (a : A)
| Thrown (message : string).
Arguments Returned {A} a.
Arguments Thrown {A} message.

Record SendResult := mkSendResult {
  success : bool;
  messageId : option string;
  error : option string
}.

(** The argument object of [sendReminderEmail]. *)
Record EmailArgs := mkEmailArgs {
  to : string;
  userName : string;
  expenseName : string;
  ea_amount : Q;
  dueDate : Date;
  ea_category : string
}.

Definition email_args (r : Reminder) : EmailArgs :=
  mkEmailArgs (r_user_email r) (r_user_name r) (r_expense_name r)
              (r_amount r) (r_due_date r) (r_category r).

(** A notifier answers the [n]-th call of a sweep (counted from 0) for
    the given arguments. *)
Definition Notifier := nat -> EmailArgs -> Completion SendResult.

(** ** The reminder engine *)

Section Engine.

(** Minutes east of UTC of the process time zone. *)
Variable tz : Z.
(** Value an INSERT leaves in [paid] when it does not name the column
    (the statement adding the column is not part of the sources). *)
Variable paid_default : option Z.

(** [createNextRecurringExpense(expense)]: the whole body is inside a
    try/catch, so a [null] from [get] (whose [.user_id] throws) leaves
    the store as it was. *)
Definition createNextRecurringExpense (s : Store) (expense : Reminder)
  : Store :=
  let nextDueDate := next_month_date tz (r_due_date expense) in
  let nextReminderDate := next_month_date tz (r_reminder_date expense) in
  match get_by_id s (r_id expense) with
  | None => s
  | Some originalExpense =>
      let i := fresh_id s in
      mkStore (users s)
              (expenses s ++
               [mkExpense i (user_id originalExpense)
                          (r_expense_name expense) (r_amount expense)
                          (r_category expense)
                          nextDueDate nextReminderDate
                          "yes"%string 0 paid_default None])
              i
  end.

(** State of a running sweep: the store and the reminders for which
    [sendReminderEmail] has been called so far, oldest first. *)
Definition Sweep : Type := Store * list Reminder.

(** Body of the [for ... of] loop for one reminder. *)
Definition process_reminder (notify : Notifier) (st : Sweep)
           (reminder : Reminder) : Sweep :=
  let (s, calls) := st in
  let calls' := calls ++ [reminder] in
  match notify (List.length calls) (email_args reminder) with
  | Returned result =>
      if success result then
        let s1 := run_mark_sent s (r_id reminder) in
        if String.eqb (r_recurring reminder) "yes"
        then (createNextRecurringExpense s1 reminder, calls')
        else (s1, calls')
      else (s, calls')
  | Thrown _ => (s, calls')
  end.

(** [processReminders()], with the date the function reads from the
    clock passed in.  The result is the store after the sweep and the
    calls made to the notifier. *)
Definition processReminders (notify : Notifier) (s : Store)
           (today : Date) : Sweep :=
  fold_left (process_reminder notify) (pendingReminders s today) (s, []).

End Engine.


(** ** The diagnostic query of [/api/pending-reminders] *)

Record PendingRow := mkPendingRow {
  p_id : Z;
  p_expense_name : string;
  p_reminder_date : Date;
  p_due_date : Date;
  p_email_sent : Z;
  p_paid : option Z;
  p_email : string
}.

Definition pending_row (e : Expense) (u : User) : PendingRow :=
  mkPendingRow (id e) (expense_name e) (reminder_date e) (due_date e)
               (email_sent e) (paid e) (u_email u).

(** [e.paid = 0 OR e.paid IS NULL]. *)
Definition not_paid (e : Expense) : bool :=
  match paid e with
  | None => true
  | Some p => p =? 0
  end.

(** [WHERE e.reminder_date <= $1 AND e.email_sent = 0
          AND (e.paid = 0 OR e.paid IS NULL)]. *)
Definition is_pending (today : Date) (e : Expense) : bool :=
  date_leb (reminder_date e) today && (email_sent e =? 0) && not_paid e.

Definition pending_rows (s : Store) (today : Date) : list PendingRow :=
  flat_map (fun e => if is_pending today e
                     then map (pending_row e) (owners s e) else [])
           (expenses s).

(** The rows the handler answers with, [ORDER BY e.reminder_date]. *)
Definition pending_reminders_query (s : Store) (today : Date)
  : list PendingRow :=
  order_by p_reminder_date (pending_rows s today).

(** ** The email service *)

Module EmailService.

(** [process.env], the two variables the sender reads. *)
Record Env := mkEnv {
  EMAIL_FROM_ADDRESS : option string;
  EMAIL_FROM_NAME : option string
}.

(** [process.env.X || fallback]: unset and empty both fall back. *)
Definition or_default (v : option string) (fallback : string) : string :=
  match v with
  | None => fallback
  | Some EmptyString => fallback
  | Some s => s
  end.

(** The object handed to [resend.emails.send].  Subject, html and text
    are renderings of the arguments and are kept as the arguments. *)
Record Message := mkMessage {
  msg_from : string;
  msg_to : list string;
  msg_content : EmailArgs
}.

(** A value a provider call throws: [null] or [undefined], or an object
    whose [message] may be missing. *)
Inductive Exception : Type :=
| Nullish
| ErrorObject (message : option string).

(** The TypeError the engine throws, with its message. *)
Definition TypeError (m : string) : Exception := ErrorObject (Some m).

(** What awaiting [resend.emails.send] gives: nothing ([undefined] or
    [null]), an object [{data, error}] whose [data] is [null] or an
    object with an [id] that may be missing and whose [error] is [null]
    or an object with a [message] that may be missing, or a thrown
    value. *)
Inductive ProviderOutcome : Type :=
| ResolvedNothing
| Resolved (data : option (option string)) (error : option (option string))
| Rejected (e : Exception).

Definition Client := Message -> ProviderOutcome.

(** How a block of statements ends: with a value, or with a throw. *)
Inductive Block (A : Type) : Type :=
| Done (a : A)
| Raised (e : Exception).
Arguments Done {A} a.
Arguments Raised {A} e.

(** [try { body } catch (error) { handler }]. *)
Definition try_catch {A : Type} (body : Block A)
           (handler : Exception -> Completion A) : Completion A :=
  match body with
  | Done a => Returned a
  | Raised e => handler e
  end.

Definition failure (m : string) : SendResult :=
  mkSendResult false None (Some m).

(** The argument of [resend.emails.send]. *)
Definition build_message (env : Env) (args : EmailArgs) : Message :=
  let fromAddress :=
    or_default (EMAIL_FROM_ADDRESS env) "onboarding@resend.dev" in
  let fromName := or_default (EMAIL_FROM_NAME env) "Expense Reminder" in
  mkMessage (fromName ++ " <" ++ fromAddress ++ ">") [to args] args.

(** The catch clause: it reads [error.message], to log it and to return
    it, and reading a property of [null] or [undefined] throws. *)
Definition on_error (e : Exception) : Completion SendResult :=
  match e with
  | Nullish => Thrown "Cannot read properties of null (reading 'message')"
  | ErrorObject m => Returned (mkSendResult false None m)
  end.

(** [sendReminderEmail], with the module variable [resend] and the
    environment passed in.  [arg] is the one argument of the call,
    [None] when it is [undefined] or [null]: the parameter is a
    destructuring pattern, so the call throws at once.  The amount is a
    number and the due date a date string, which the two formatting
    calls before the try accept. *)
Definition sendReminderEmail (env : Env) (resend : option Client)
           (arg : option EmailArgs) : Completion SendResult :=
  match arg with
  | None =>
      Thrown "Cannot destructure property 'to' of 'undefined' as it is undefined."
  | Some args =>
      match resend with
      | None => Returned (failure "Email service not configured")
      | Some client =>
          try_catch
            (match client (build_message env args) with
             | Rejected e => Raised e
             | ResolvedNothing =>
                 (* [const { data, error } = undefined] *)
                 Raised (TypeError
                   "Cannot destructure property 'data' of '(intermediate value)' as it is undefined.")
             | Resolved _ (Some m) => Done (mkSendResult false None m)
             | Resolved None None =>
                 (* [data.id] on [null] *)
                 Raised (TypeError
                   "Cannot read properties of null (reading 'id')")
             | Resolved (Some i) None => Done (mkSendResult true i None)
             end)
            on_error
      end
  end.

(** The notifier a sweep uses when the [n]-th call reaches the provider
    in the state [resend n]; the sweep always passes an object. *)
Definition notifier (env : Env) (resend : nat -> option Client) : Notifier :=
  fun n args => sendReminderEmail env (resend n) (Some args).

End EmailService.

(** ** The email service, Brevo variant *)

Module BrevoService.

(** The error object a failed call throws: its [message] and its
    [body.message], each possibly missing. *)
Record ApiError := mkApiError {
  ae_message : option string;
  ae_body_message : option string
}.

(** What awaiting [apiInstance.sendTransacEmail] gives: a result object
    (or nothing) whose [messageId] may be missing, or a thrown value,
    which is an error object or [null] or [undefined]. *)
Inductive ApiOutcome : Type :=
| Sent (result : option (option string))
| Failed (e : option ApiError).

(** [a || b] on strings that may be [undefined]: the first that is
    there and not empty. *)
Definition or_string (a : option string) (b : option string)
  : option string :=
  match a with
  | None => b
  | Some EmptyString => b
  | Some s => Some s
  end.

(** [error.message || error.body?.message || 'Unknown error'] for an
    error object. *)
Definition error_text (e : ApiError) : string :=
  match or_string (or_string (ae_message e) (ae_body_message e))
                  (Some "Unknown error"%string) with
  | Some s => s
  | None => EmptyString
  end.

(** The try block: the result, or the value it throws (reading
    [messageId] of a missing result is a TypeError). *)
Definition try_send (api : EmailArgs -> ApiOutcome) (args : EmailArgs)
  : SendResult + option ApiError :=
  match api args with
  | Sent (Some mid) => inl (mkSendResult true mid None)
  | Sent None =>
      inr (Some (mkApiError
             (Some "Cannot read properties of undefined (reading 'messageId')"%string)
             None))
  | Failed e => inr e
  end.

(** [sendReminderEmail] of the Brevo variant; [arg] is [None] when the
    call has no argument object.  The catch clause reads
    [error.message], which throws when the thrown value is [null] or
    [undefined]. *)
Definition sendReminderEmail (apiInstance : option (EmailArgs -> ApiOutcome))
           (arg : option EmailArgs) : Completion SendResult :=
  match arg with
  | None =>
      Thrown "Cannot destructure property 'to' of 'undefined' as it is undefined."
  | Some args =>
      match apiInstance with
      | None =>
          Returned (mkSendResult false None
                                 (Some "Email service not configured"%string))
      | Some api =>
          match try_send api args with
          | inl result => Returned result
          | inr (Some e) =>
              Returned (mkSendResult false None (Some (error_text e)))
          | inr None =>
              Thrown "Cannot read properties of null (reading 'message')"
          end
      end
  end.

End BrevoService.

(** ** The expense routes *)

Module Routes.

Definition CATEGORIES : list string :=
  ["Bills"; "Food"; "Transport"; "Shopping"; "Entertainment"; "Health";
   "Education"; "Other"]%string.

(** The fields of [req.body] the handlers read; [None] is [undefined]. *)
Record Body := mkBody {
  b_expense_name : option string;
  b_amount : option Q;
  b_category : option string;
  b_due_date : option Date;
  b_reminder_date : option Date;
  b_recurring : option string
}.

Record Response := mkResponse {
  status : Z;
  ok : bool;
  message : string;
  data : option Expense
}.

(** *** express-validator *)

Definition is_space (c : ascii) : bool :=
  let n := N_of_ascii c in
  ((9 <=? n) && (n <=? 13))%N || (n =? 32)%N.

Fixpoint ltrim (s : string) : string :=
  match s with
  | EmptyString => EmptyString
  | String c t => if is_space c then ltrim t else s
  end.

Fixpoint rtrim (s : string) : string :=
  match s with
  | EmptyString => EmptyString
  | String c t =>
      match rtrim t with
      | EmptyString => if is_space c then EmptyString else String c EmptyString
      | t' => String c t'
      end
  end.

Definition trim (s : string) : string := rtrim (ltrim s).

Definition isIn (l : list string) (s : string) : bool :=
  existsb (String.eqb s) l.

(** [isISO8601()] on a date-only string: four digits of year, a month
    from 01 to 12 and a day from 01 to 31. *)
Definition isISO8601 (d : Date) : bool :=
  (0 <=? year d) && (year d <=? 9999) &&
  (1 <=? month d) && (month d <=? 12) &&
  (1 <=? day d) && (day d <=? 31).

(** [isFloat({ min: 0.01 })]. *)
Definition isFloat_min (a : Q) : bool := Qle_bool (1 # 100) a.

(** [.optional()] skips the checks of a field that is [undefined]. *)
Definition optional {A : Type} (check : A -> bool) (v : option A) : bool :=
  match v with
  | None => true
  | Some a => check a
  end.

(** A field that must be there ([notEmpty] on [undefined] fails). *)
Definition required {A : Type} (check : A -> bool) (v : option A) : bool :=
  match v with
  | None => false
  | Some a => check a
  end.

Definition name_len_ok (lo hi : nat) (s : string) : bool :=
  let n := String.length (trim s) in
  (Nat.leb lo n) && (Nat.leb n hi).

(** The chain of [router.post('/')]. *)
Definition validate_post (b : Body) : bool :=
  required (name_len_ok 1 100) (b_expense_name b) &&
  required isFloat_min (b_amount b) &&
  optional (isIn CATEGORIES) (b_category b) &&
  required isISO8601 (b_due_date b) &&
  required isISO8601 (b_reminder_date b) &&
  optional (isIn ["yes"; "no"]%string) (b_recurring b).

(** The chain of [router.put('/:id')]. *)
Definition validate_put (b : Body) : bool :=
  optional (name_len_ok 1 100) (b_expense_name b) &&
  optional isFloat_min (b_amount b) &&
  optional (isIn CATEGORIES) (b_category b) &&
  optional isISO8601 (b_due_date b) &&
  optional isISO8601 (b_reminder_date b) &&
  optional (isIn ["yes"; "no"]%string) (b_recurring b).

Definition validation_failed : Response :=
  mkResponse 400 false "Validation failed" None.

Definition or_else {A : Type} (v : option A) (d : A) : A :=
  match v with
  | None => d
  | Some a => a
  end.

Section Handlers.

Variable paid_default : option Z.

(** [router.post('/')] for the authenticated user [user].  The row is
    stored as the sql.js table stores it: the values of the request as
    they are.  The DATE and DECIMAL(10,2) columns of the PostgreSQL
    table do the same for a calendar date and for an amount of at most
    two decimals below 10^8, and refuse or round the others. *)
Definition post_expense (s : Store) (user : Z) (b : Body)
  : Store * Response :=
  if negb (validate_post b) then (s, validation_failed)
  else
    match b_expense_name b, b_amount b, b_due_date b, b_reminder_date b with
    | Some name, Some amt, Some due, Some rem =>
        if JSDate.parse rem >? JSDate.parse due then
          (s, mkResponse 400 false
                         "Reminder date cannot be after due date" None)
        else
          let i := fresh_id s in
          let expense :=
            mkExpense i user (trim name) amt
                      (or_else (b_category b) "Other"%string)
                      due rem
                      (or_else (b_recurring b) "no"%string)
                      0 paid_default None in
          (mkStore (users s) (expenses s ++ [expense]) i,
           mkResponse 201 true "Expense created successfully"
                      (Some expense))
    | _, _, _, _ => (s, validation_failed)
    end.

(** The SET list the handler assembles, applied to one row. *)
Definition apply_updates (b : Body) (e : Expense) : Expense :=
  mkExpense (id e) (user_id e)
            (match b_expense_name b with
             | Some n => trim n | None => expense_name e end)
            (or_else (b_amount b) (amount e))
            (or_else (b_category b) (category e))
            (or_else (b_due_date b) (due_date e))
            (or_else (b_reminder_date b) (reminder_date e))
            (or_else (b_recurring b) (recurring e))
            (match b_reminder_date b with
             | Some _ => 0 | None => email_sent e end)
            (paid e) (paid_at e).

(** [updates.length === 0]. *)
Definition no_updates (b : Body) : bool :=
  match b_expense_name b, b_amount b, b_category b,
        b_due_date b, b_reminder_date b, b_recurring b with
  | None, None, None, None, None, None => true
  | _, _, _, _, _, _ => false
  end.

Definition owned (i user : Z) (e : Expense) : bool :=
  (id e =? i) && (user_id e =? user).

(** [router.put('/:id')] for the authenticated user [user]; the values
    are stored as by the create route. *)
Definition put_expense (s : Store) (user i : Z) (b : Body)
  : Store * Response :=
  if negb (validate_put b) then (s, validation_failed)
  else
    match find (owned i user) (expenses s) with
    | None => (s, mkResponse 404 false "Expense not found" None)
    | Some _ =>
        if no_updates b then
          (s, mkResponse 400 false "No fields to update" None)
        else
          let rows :=
            map (fun e => if owned i user e then apply_updates b e else e)
                (expenses s) in
          (with_expenses s rows,
           mkResponse 200 true "Expense updated successfully"
                      (find (owned i user) rows))
    end.

(** [router.get('/:id')]. *)
Definition get_expense (s : Store) (user i : Z) : Response :=
  match find (owned i user) (expenses s) with
  | None => mkResponse 404 false "Expense not found" None
  | Some expense => mkResponse 200 true "" (Some expense)
  end.

(** [router.delete('/:id')]: the AUTOINCREMENT counter is not touched by
    a DELETE. *)
Definition delete_expense (s : Store) (user i : Z) : Store * Response :=
  match find (owned i user) (expenses s) with
  | None => (s, mkResponse 404 false "Expense not found" None)
  | Some _ =>
      (with_expenses s (filter (fun e => negb (owned i user e)) (expenses s)),
       mkResponse 200 true "Expense deleted successfully" None)
  end.

Definition set_paid (p : option Z) (at_ : option string) (e : Expense)
  : Expense :=
  mkExpense (id e) (user_id e) (expense_name e) (amount e) (category e)
            (due_date e) (reminder_date e) (recurring e) (email_sent e)
            p at_.

(** [expense.paid === 1 ? 0 : 1]. *)
Definition toggled (p : option Z) : Z :=
  match p with
  | Some v => if v =? 1 then 0 else 1
  | None => 1
  end.

(** [router.patch('/:id/paid')]; [now] is [new Date().toISOString()]. *)
Definition patch_paid (s : Store) (user i : Z) (now : string)
  : Store * Response :=
  match find (owned i user) (expenses s) with
  | None => (s, mkResponse 404 false "Expense not found" None)
  | Some expense =>
      let newPaidStatus := toggled (paid expense) in
      let paidAt := if newPaidStatus =? 1 then Some now else None in
      let rows :=
        map (fun e => if owned i user e
                      then set_paid (Some newPaidStatus) paidAt e else e)
            (expenses s) in
      (with_expenses s rows,
       mkResponse 200 true
                  (if newPaidStatus =? 1 then "Expense marked as paid"
                   else "Expense marked as unpaid")
                  (find (owned i user) rows))
  end.

(** The query string of [router.get('/')]. *)
Record Query := mkQuery {
  q_category : option string;
  q_startDate : option Date;
  q_endDate : option Date;
  q_recurring : option string
}.

Definition validate_list (q : Query) : bool :=
  optional (isIn CATEGORIES) (q_category q) &&
  optional isISO8601 (q_startDate q) &&
  optional isISO8601 (q_endDate q) &&
  optional (isIn ["yes"; "no"]%string) (q_recurring q).

(** [if (req.query.x)] on a string: [undefined] and the empty string
    add no condition. *)
Definition string_filter (v : option string) (column : string) : bool :=
  match v with
  | None => true
  | Some EmptyString => true
  | Some x => String.eqb column x
  end.

(** The WHERE clause the handler assembles. *)
Definition list_where (user : Z) (q : Query) (e : Expense) : bool :=
  (user_id e =? user) &&
  string_filter (q_category q) (category e) &&
  optional (fun d => date_leb d (due_date e)) (q_startDate q) &&
  optional (fun d => date_leb (due_date e) d) (q_endDate q) &&
  string_filter (q_recurring q) (recurring e).

Record ListResponse := mkListResponse {
  l_status : Z;
  l_expenses : list Expense;
  l_count : nat
}.

(** [router.get('/')]; the dates compare as the text of the sql.js
    table does, which is the order of the PostgreSQL DATE column on
    calendar dates. *)
Definition list_expenses (s : Store) (user : Z) (q : Query) : ListResponse :=
  if negb (validate_list q) then mkListResponse 400 [] 0
  else
    let rows := order_by due_date (filter (list_where user q) (expenses s)) in
    mkListResponse 200 rows (List.length rows).

(** The first and the last day [router.get('/summary/monthly')] puts in
    its BETWEEN: [`${year}-${pad(month)}-01`] and
    [new Date(year, month, 0).toISOString().split('T')[0]], in a process
    [tz] minutes east of UTC.  The [Date] constructor reads a year from
    0 to 99 as 1900 plus that year and builds a local time. *)
Definition month_bounds (tz year month : Z) : Date * Date :=
  let yr := if (0 <=? year) && (year <=? 99) then 1900 + year else year in
  (mkDate year month 1,
   JSDate.toISODate
     (JSDate.UTC tz (JSDate.MakeDay yr month 0 * JSDate.msPerDay))).

End Handlers.

End Routes.

(** ** Vocabulary of the statements *)

(** The [k]-th call of a sweep, made for [r], reported success. *)
Definition succeeded (notify : Notifier) (k : nat) (r : Reminder) : bool :=
  match notify k (email_args r) with
  | Returned result => success result
  | Thrown _ => false
  end.

(** The reminders of [l] whose call reported success, when the first
    call for [l] is the [k]-th of the sweep. *)
Fixpoint sent (notify : Notifier) (k : nat) (l : list Reminder)
  : list Reminder :=
  match l with
  | [] => []
  | r :: t => if succeeded notify k r then r :: sent notify (S k) t
              else sent notify (S k) t
  end.

Definition is_recurring (r : Reminder) : bool :=
  String.eqb (r_recurring r) "yes".

Definition recurring_sent (notify : Notifier) (k : nat) (l : list Reminder)
  : list Reminder :=
  filter is_recurring (sent notify k l).

(** Every call of the notifier returns and reports success. *)
Definition all_succeed (notify : Notifier) : Prop :=
  forall k a, exists result,
    notify k a = Returned result /\ success result = true.

(** A row with its flag raised if its id is one of [ids]. *)
Definition mark_all (ids : list Z) (e : Expense) : Expense :=
  if existsb (Z.eqb (id e)) ids then set_email_sent 1 e else e.

(** The calls made for the expense [i]. *)
Definition calls_for (i : Z) (calls : list Reminder) : list Reminder :=
  filter (fun r => r_id r =? i) calls.

(** All ids handed out so far are at most [id_bound s]. *)
Definition id_bound (s : Store) : Z :=
  Z.max (last_id s) (max_id (expenses s)).

(** [x] is the row the recurrence generator inserts for the reminder
    [r] found in the store [s], in a process whose zone is [tz]. *)
Definition successor_of (tz : Z) (s : Store) (r : Reminder) (x : Expense)
  : Prop :=
  id_bound s < id x /\
  (exists o, get_by_id s (r_id r) = Some o /\ user_id x = user_id o) /\
  expense_name x = r_expense_name r /\
  amount x = r_amount r /\
  category x = r_category r /\
  due_date x = next_month_date tz (r_due_date r) /\
  reminder_date x = next_month_date tz (r_reminder_date r) /\
  recurring x = "yes"%string /\
  email_sent x = 0.

(** [e'] has every column of [e] except, possibly, [email_sent]. *)
Definition unchanged_but_flag (e e' : Expense) : Prop :=
  id e' = id e /\ user_id e' = user_id e /\
  expense_name e' = expense_name e /\ amount e' = amount e /\
  category e' = category e /\ due_date e' = due_date e /\
  reminder_date e' = reminder_date e /\ recurring e' = recurring e /\
  paid e' = paid e /\ paid_at e' = paid_at e.

(** Primary keys are unique and every expense has its owner. *)
Definition wf_store (s : Store) : Prop :=
  NoDup (map id (expenses s)) /\
  NoDup (map u_id (users s)) /\
  forall e, In e (expenses s) ->
            exists u, In u (users s) /\ u_id u = user_id e.

(** The store after the loop body has handled [r], given whether the
    call for [r] reported success. *)
Definition after_call (tz : Z) (paid_default : option Z) (s : Store)
           (r : Reminder) (ok : bool) : Store :=
  if ok then
    if is_recurring r
    then createNextRecurringExpense tz paid_default
                                    (run_mark_sent s (r_id r)) r
    else run_mark_sent s (r_id r)
  else s.

(** What a sweep over [l], whose first call is the [k]-th, makes of the
    store [s]: the rows of [s] in place, those of the reminders sent
    with their flag raised, followed by one successor per recurring
    reminder sent, in the order of the calls. *)
Definition sweep_shape (tz : Z) (notify : Notifier) (s : Store) (k : nat)
           (l : list Reminder) (s' : Store) : Prop :=
  users s' = users s /\
  id_bound s <= id_bound s' /\
  exists extra,
    expenses s' = map (mark_all (map r_id (sent notify k l))) (expenses s)
                  ++ extra /\
    Forall2 (successor_of tz s) (recurring_sent notify k l) extra.

(** What adding a month gives in a process on UTC: when the day
    exists in the following month the result is that day of that month;
    when it does not, the result is in the month after, as many days in
    as the day exceeds the following month. *)
Definition next_month_check (d : Date) : bool :=
  let y' := if month d =? 12 then year d + 1 else year d in
  let m' := if month d =? 12 then 1 else month d + 1 in
  let y'' := if m' =? 12 then y' + 1 else y' in
  let m'' := if m' =? 12 then 1 else m' + 1 in
  let n := days_in_month y' m' in
  date_eqb (next_month_date 0 d)
           (if day d <=? n then mkDate y' m' (day d)
            else mkDate y'' m'' (day d - n)).

Definition dates_of_years (from count : nat) : list Date :=
  flat_map (fun y =>
    flat_map (fun m =>
      map (fun d => mkDate (Z.of_nat y) (Z.of_nat m) (Z.of_nat d))
          (seq 1 (Z.to_nat (days_in_month (Z.of_nat y) (Z.of_nat m)))))
      (seq 1 12))
    (seq from count).

(** ** Vocabulary of the calendar facts *)

(** The year that starts on the first of March and holds month [m] of
    the civil year [y]. *)
Definition march_year (y m : Z) : Z := if m <=? 2 then y - 1 else y.

(** Day of the 400-year era, from the year of the era. *)
Definition doe_of (yoe m d : Z) : Z :=
  let mp := if 2 <? m then m - 3 else m + 9 in
  yoe * 365 + yoe / 4 - yoe / 100 + ((153 * mp + 2) / 5 + d - 1).

Definition shift_year (k : Z) (c : Date) : Date :=
  mkDate (year c + k) (month c) (day c).

Definition zrange (lo : Z) (n : nat) : list Z :=
  map (fun k => lo + Z.of_nat k) (seq 0 n).

(** One date of the era survives the trip to its day number and back. *)
Definition era_date_ok (yoe m d : Z) : bool :=
  let doe := doe_of yoe m d in
  (0 <=? doe) && (doe <? 146097) &&
  date_eqb (civil_from_days (doe - 719468))
           (mkDate (if m <=? 2 then yoe + 1 else yoe) m d).

Definition era_month_ok (yoe m : Z) : bool :=
  forallb (era_date_ok yoe m)
          (zrange 1 (Z.to_nat
             (days_in_month (if m <=? 2 then yoe + 1 else yoe) m))).

Definition era_year_ok (yoe : Z) : bool :=
  forallb (era_month_ok yoe) (zrange 1 12).

Definition next_month (y m : Z) : Z * Z :=
  if m =? 12 then (y + 1, 1) else (y, m + 1).

Definition prev_month (y m : Z) : Z * Z :=
  if m =? 1 then (y - 1, 12) else (y, m - 1).

(** The date [k] days after the last day before month [m] of year [y],
    for a [k] that reaches at most into the following month. *)
Definition month_day (y m k : Z) : Date :=
  let n := days_in_month y m in
  if k <=? n then mkDate y m k
  else mkDate (fst (next_month y m)) (snd (next_month y m)) (k - n).

(** The AUTOINCREMENT counter is not behind the ids of the table. *)
Definition seq_ok (s : Store) : Prop := max_id (expenses s) <= last_id s.

(** [e'] has every column of [e] except, possibly, [paid] and
    [paid_at]. *)
Definition unchanged_but_paid (e e' : Expense) : Prop :=
  id e' = id e /\ user_id e' = user_id e /\
  expense_name e' = expense_name e /\ amount e' = amount e /\
  category e' = category e /\ due_date e' = due_date e /\
  reminder_date e' = reminder_date e /\ recurring e' = recurring e /\
  email_sent e' = email_sent e.

(** An amount a DECIMAL(10,2) column holds as given: at most two
    decimals, positive and below 10^8. *)
Definition decimal_10_2 (a : Q) : Prop :=
  exists n : Z, (a == n # 100)%Q /\ 1 <= n < 10000000000.

(** ** Sample data *)

Module Sample.

Definition asha : User := mkUser 1 "Asha" "asha@example.com".

(** The scenario of the specification: due on the 15th, reminder on the
    10th, recurring, not yet notified. *)
Definition rent : Expense :=
  mkExpense 1 1 "Rent" (12000 # 1) "Bills"
            (mkDate 2024 3 15) (mkDate 2024 3 10) "yes" 0 None None.

(** A recurring expense due on the last day of January. *)
Definition gym : Expense :=
  mkExpense 2 1 "Gym" (1500 # 1) "Health"
            (mkDate 2024 1 31) (mkDate 2024 1 25) "yes" 0 None None.

(** A one-off expense that has been paid. *)
Definition books : Expense :=
  mkExpense 3 1 "Books" (800 # 1) "Education"
            (mkDate 2024 3 12) (mkDate 2024 3 11) "no" 0 (Some 1)
            (Some "2024-03-02T09:00:00.000Z"%string).

(** A one-off expense, not paid, due before the rent and to be
    reminded of after it. *)
Definition water : Expense :=
  mkExpense 4 1 "Water" (300 # 1) "Bills"
            (mkDate 2024 3 12) (mkDate 2024 3 11) "no" 0 (Some 0) None.

Definition rent_only : Store := mkStore [asha] [rent] 1.
Definition rent_notified : Store :=
  mkStore [asha] [set_email_sent 1 rent] 1.
Definition rent_and_water : Store := mkStore [asha] [rent; water] 4.
Definition gym_only : Store := mkStore [asha] [gym] 2.
Definition rent_and_gym : Store := mkStore [asha] [rent; gym] 2.
Definition rent_and_books : Store := mkStore [asha] [rent; books] 3.

(** A notifier whose every call is delivered. *)
Definition delivers : Notifier :=
  fun _ _ => Returned (mkSendResult true (Some "msg"%string) None).

(** A notifier that fails the call for one address book entry and
    delivers the others. *)
Definition fails_for (name : string) : Notifier :=
  fun _ a => if String.eqb (expenseName a) name
             then Returned (mkSendResult false None (Some "rejected"%string))
             else Returned (mkSendResult true (Some "msg"%string) None).

(** A PUT body that moves the reminder, to a day before the due date
    and to a day after it. *)
Definition remind_on_12th : Routes.Body :=
  Routes.mkBody None None None None (Some (mkDate 2024 3 12)) None.
Definition remind_on_20th : Routes.Body :=
  Routes.mkBody None None None None (Some (mkDate 2024 3 20)) None.

(** A POST body with the dates the second PUT leaves in the row. *)
Definition rent_reminded_late : Routes.Body :=
  Routes.mkBody (Some "Rent"%string) (Some (12000 # 1))
                (Some "Bills"%string)
                (Some (mkDate 2024 3 15)) (Some (mkDate 2024 3 20))
                (Some "yes"%string).

(** A POST body for a bill due on the 20th, reminder on the 18th. *)
Definition water_bill : Routes.Body :=
  Routes.mkBody (Some "  Water "%string) (Some (300 # 1)) None
                (Some (mkDate 2024 3 20)) (Some (mkDate 2024 3 18)) None.

(** The bills due in March 2024. *)
Definition bills_in_march : Routes.Query :=
  Routes.mkQuery (Some "Bills"%string) (Some (mkDate 2024 3 1))
                 (Some (mkDate 2024 3 31)) None.

End Sample.

(** * Properties *)

(** ** Order of dates and ORDER BY *)

Lemma date_leb_refl (a : Date) : date_leb a a = true.
Proof.
  unfold date_leb. rewrite !Z.ltb_irrefl. apply Z.leb_refl.
Qed.

Lemma date_leb_total (a b : Date) :
  date_leb a b = false -> date_leb b a = true.
Proof.
  unfold date_leb.
  destruct (year a <? year b) eqn:E1; [discriminate|].
  destruct (year b <? year a) eqn:E2; [reflexivity|].
  destruct (month a <? month b) eqn:E3; [discriminate|].
  destruct (month b <? month a) eqn:E4; [reflexivity|].
  intros H. apply Z.leb_gt in H. apply Z.leb_le. lia.
Qed.

Lemma date_leb_trans (a b c : Date) :
  date_leb a b = true -> date_leb b c = true -> date_leb a c = true.
Proof.
  unfold date_leb.
  repeat match goal with
         | |- context [?x <? ?y] =>
             let E := fresh "E" in
             destruct (Z.ltb_spec x y) as [E|E]
         end;
  rewrite ?Z.leb_le; intros; try reflexivity; try discriminate; lia.
Qed.


Section OrderByFacts.
Context {A : Type} (key : A -> Date).

Lemma insert_by_perm (x : A) (l : list A) :
  Permutation (x :: l) (insert_by key x l).
Proof.
  induction l as [|y t IH]; simpl.
  - apply Permutation_refl.
  - destruct (date_leb (key x) (key y)).
    + apply Permutation_refl.
    + eapply perm_trans; [apply perm_swap|].
      now apply perm_skip.
Qed.

Lemma order_by_perm (l : list A) : Permutation l (order_by key l).
Proof.
  induction l as [|x t IH]; simpl.
  - constructor.
  - eapply perm_trans; [apply perm_skip, IH|].
    apply insert_by_perm.
Qed.

Lemma insert_by_sorted (x : A) (l : list A) :
StronglySorted (key_le key) l ->
StronglySorted (key_le key) (insert_by key x l).
Proof.
  induction 1 as [|y t Ht IH Hy]; simpl.
  - repeat constructor.
  - destruct (date_leb (key x) (key y)) eqn:E.
    + constructor.
      * now constructor.
      * constructor; [exact E|].
        eapply Forall_impl; [|exact Hy].
        intros z Hz. unfold key_le in *.
        eapply date_leb_trans; eauto.
    + constructor; [exact IH|].
      apply date_leb_total in E.
      assert (HP := insert_by_perm x t).
      rewrite Forall_forall in *.
      intros z Hz.
      apply (Permutation_in _ (Permutation_sym HP)) in Hz.
      destruct Hz as [<-|Hz]; [exact E|now apply Hy].
Qed.

Lemma order_by_sorted (l : list A) :
StronglySorted (key_le key) (order_by key l).
Proof.
  induction l as [|x t IH]; simpl.
  - constructor.
  - now apply insert_by_sorted.
Qed.

Lemma order_by_In (l : list A) (x : A) : In x (order_by key l) <-> In x l.
Proof.
  split; apply Permutation_in;
    [apply Permutation_sym|]; apply order_by_perm.
Qed.
End OrderByFacts.

(** ** Ids, lookups and marks *)

Lemma max_id_ge (l : list Expense) (i : Z) :
  In i (map id l) -> i <= max_id l.
Proof.
  induction l as [|e t IH]; simpl; [tauto|].
  intros [<-|H]; [lia|]. specialize (IH H). lia.
Qed.

Lemma id_in_bound (s : Store) (i : Z) :
  In i (map id (expenses s)) -> i <= id_bound s.
Proof.
  intros H. apply max_id_ge in H. unfold id_bound. lia.
Qed.

Lemma id_mark_sent (i : Z) (e : Expense) : id (mark_sent i e) = id e.
Proof. unfold mark_sent. now destruct (id e =? i). Qed.

Lemma user_id_mark_sent (i : Z) (e : Expense) :
  user_id (mark_sent i e) = user_id e.
Proof. unfold mark_sent. now destruct (id e =? i). Qed.

Lemma map_id_mark_sent (i : Z) (l : list Expense) :
  map id (map (mark_sent i) l) = map id l.
Proof.
  rewrite map_map. apply map_ext. intros e. apply id_mark_sent.
Qed.

Lemma id_mark_all (ids : list Z) (e : Expense) : id (mark_all ids e) = id e.
Proof. unfold mark_all. now destruct (existsb _ ids). Qed.

Lemma map_id_mark_all (ids : list Z) (l : list Expense) :
  map id (map (mark_all ids) l) = map id l.
Proof.
  rewrite map_map. apply map_ext. intros e. apply id_mark_all.
Qed.

Lemma max_id_map_id (l l' : list Expense) :
  map id l = map id l' -> max_id l = max_id l'.
Proof.
  revert l'. induction l as [|e t IH]; intros [|e' t']; simpl;
    try discriminate; [reflexivity|].
  intros H. injection H as H1 H2. rewrite H1, (IH _ H2). reflexivity.
Qed.

Lemma max_id_app (l l' : list Expense) :
  max_id (l ++ l') = Z.max (max_id l) (max_id l').
Proof.
  induction l as [|e t IH]; simpl.
  - assert (0 <= max_id l'); [|lia].
    induction l'; simpl; lia.
  - rewrite IH. lia.
Qed.

Lemma mark_all_nil (e : Expense) : mark_all [] e = e.
Proof. reflexivity. Qed.

Lemma mark_all_cons (i : Z) (ids : list Z) (e : Expense) :
  mark_all ids (mark_sent i e) = mark_all (i :: ids) e.
Proof.
  unfold mark_all, mark_sent. simpl.
  destruct (id e =? i) eqn:E; simpl.
  - destruct (existsb (Z.eqb (id e)) ids); reflexivity.
  - reflexivity.
Qed.

Lemma mark_all_fresh (ids : list Z) (e : Expense) :
  ~ In (id e) ids -> mark_all ids e = e.
Proof.
  intros H. unfold mark_all.
  destruct (existsb (Z.eqb (id e)) ids) eqn:E; [|reflexivity].
  apply existsb_exists in E. destruct E as [j [Hj E]].
  apply Z.eqb_eq in E. now subst.
Qed.

Lemma mark_all_hit (ids : list Z) (e : Expense) :
  In (id e) ids -> mark_all ids e = set_email_sent 1 e.
Proof.
  intros H. unfold mark_all.
  destruct (existsb (Z.eqb (id e)) ids) eqn:E; [reflexivity|].
  assert (existsb (Z.eqb (id e)) ids = true); [|congruence].
  apply existsb_exists. exists (id e). split; [exact H|apply Z.eqb_refl].
Qed.

Lemma get_by_id_found (s : Store) (i : Z) :
  In i (map id (expenses s)) -> exists o, get_by_id s i = Some o.
Proof.
  unfold get_by_id. destruct s as [us l n]; simpl.
  induction l as [|e t IH]; simpl; [tauto|].
  intros [<-|H].
  - rewrite Z.eqb_refl. eauto.
  - destruct (id e =? i); eauto.
Qed.

Lemma find_map_preserving (f : Expense -> Expense) (i : Z)
      (l : list Expense) :
  (forall e, id (f e) = id e) ->
  find (fun e => id e =? i) (map f l)
  = option_map f (find (fun e => id e =? i) l).
Proof.
  intros Hf. induction l as [|e t IH]; simpl; [reflexivity|].
  rewrite Hf. destruct (id e =? i); [reflexivity|exact IH].
Qed.

Lemma find_app_found (p : Expense -> bool) (l l' : list Expense)
      (o : Expense) :
  find p l = Some o -> find p (l ++ l') = Some o.
Proof.
  induction l as [|e t IH]; simpl; [discriminate|].
  destruct (p e); auto.
Qed.

Lemma Forall2_impl_In {A B : Type} (P Q : A -> B -> Prop)
      (l : list A) (l' : list B) :
  (forall a b, In a l -> P a b -> Q a b) ->
  Forall2 P l l' -> Forall2 Q l l'.
Proof.
  intros H F. induction F as [|a b l l' Hab F IH]; constructor.
  - apply H; [now left|exact Hab].
  - apply IH. intros a' b' Ha'. apply H. now right.
Qed.

(** ** The notifier's answers *)

Lemma sent_incl (notify : Notifier) (l : list Reminder) (k : nat)
      (r : Reminder) :
  In r (sent notify k l) -> In r l.
Proof.
  revert k. induction l as [|x t IH]; simpl; intros k; [tauto|].
  destruct (succeeded notify k x); simpl; intros H.
  - destruct H as [H|H]; eauto.
  - eauto.
Qed.

Lemma recurring_sent_incl (notify : Notifier) (l : list Reminder) (k : nat)
      (r : Reminder) :
  In r (recurring_sent notify k l) -> In r l.
Proof.
  unfold recurring_sent. intros H. apply filter_In in H.
  eapply sent_incl, H.
Qed.

Lemma all_succeed_succeeded (notify : Notifier) (k : nat) (r : Reminder) :
  all_succeed notify -> succeeded notify k r = true.
Proof.
  intros H. unfold succeeded.
  destruct (H k (email_args r)) as [res [-> Hs]]. exact Hs.
Qed.

Lemma all_succeed_sent (notify : Notifier) (l : list Reminder) (k : nat) :
  all_succeed notify -> sent notify k l = l.
Proof.
  intros H. revert k. induction l as [|r t IH]; simpl; intros k.
  - reflexivity.
  - rewrite (all_succeed_succeeded _ _ _ H), IH. reflexivity.
Qed.

Lemma sent_app (notify : Notifier) (l1 l2 : list Reminder) (k : nat) :
  sent notify k (l1 ++ l2)
  = sent notify k l1 ++ sent notify (k + List.length l1) l2.
Proof.
  revert k. induction l1 as [|r t IH]; simpl; intros k.
  - now rewrite Nat.add_0_r.
  - rewrite IH, Nat.add_succ_r. simpl.
    destruct (succeeded notify k r); reflexivity.
Qed.

(** ** One turn of the loop, and the loop *)

Section EngineFacts.
Variable tz : Z.
Variable paid_default : option Z.
Variable notify : Notifier.

Lemma process_reminder_eq (s : Store) (calls : list Reminder)
      (r : Reminder) :
  process_reminder tz paid_default notify (s, calls) r
  = (after_call tz paid_default s r (succeeded notify (List.length calls) r),
     calls ++ [r]).
Proof.
  unfold process_reminder, after_call, succeeded, is_recurring.
  destruct (notify (List.length calls) (email_args r)) as [res|m];
    [|reflexivity].
  destruct (success res); [|reflexivity].
  destruct (String.eqb (r_recurring r) "yes"); reflexivity.
Qed.

Lemma id_bound_run_mark_sent (s : Store) (i : Z) :
  id_bound (run_mark_sent s i) = id_bound s.
Proof.
  unfold id_bound, run_mark_sent; simpl.
  f_equal. apply max_id_map_id, map_id_mark_sent.
Qed.

Lemma get_by_id_run_mark_sent (s : Store) (i j : Z) :
  get_by_id (run_mark_sent s i) j
  = option_map (mark_sent i) (get_by_id s j).
Proof.
  unfold get_by_id, run_mark_sent; simpl.
  apply find_map_preserving, id_mark_sent.
Qed.

(** The successor row, as [createNextRecurringExpense] builds it. *)
Lemma create_next_found (s : Store) (r : Reminder) (o : Expense) :
  get_by_id s (r_id r) = Some o ->
  exists x,
    createNextRecurringExpense tz paid_default s r
    = mkStore (users s) (expenses s ++ [x]) (id x) /\
    id x = id_bound s + 1 /\
    successor_of tz s r x.
Proof.
  intros Hget. unfold createNextRecurringExpense. rewrite Hget.
  exists (mkExpense (fresh_id s) (user_id o) (r_expense_name r) (r_amount r)
                    (r_category r) (next_month_date tz (r_due_date r))
                    (next_month_date tz (r_reminder_date r))
                    "yes"%string 0 paid_default None).
  split; [reflexivity|]. simpl.
  split; [reflexivity|].
  unfold successor_of; simpl. unfold fresh_id, id_bound.
  repeat split; try reflexivity; try lia.
  exists o. split; [exact Hget|reflexivity].
Qed.

Lemma after_call_shape (s : Store) (r : Reminder) (ok : bool) :
  In (r_id r) (map id (expenses s)) ->
  let s1 := after_call tz paid_default s r ok in
  users s1 = users s /\
  id_bound s <= id_bound s1 /\
  (exists e1,
      expenses s1
      = map (if ok then mark_sent (r_id r) else fun e => e) (expenses s)
        ++ e1 /\
      Forall2 (successor_of tz s)
              (if ok && is_recurring r then [r] else []) e1 /\
      Forall (fun x => id_bound s < id x) e1) /\
  (forall j o1,
      In j (map id (expenses s)) ->
      get_by_id s1 j = Some o1 ->
      exists o, get_by_id s j = Some o /\ user_id o1 = user_id o).
Proof.
  intros Hin. unfold after_call.
  destruct ok; simpl.
  2:{ split; [reflexivity|]. split; [lia|]. split.
      - exists []. rewrite map_id, app_nil_r. repeat constructor.
      - intros j o1 _ H. eauto. }
  assert (Hin' : In (r_id r) (map id (expenses (run_mark_sent s (r_id r))))).
  { simpl. now rewrite map_id_mark_sent. }
  destruct (is_recurring r) eqn:Hrec.
  - destruct (get_by_id_found _ _ Hin') as [o' Ho'].
    destruct (create_next_found _ _ _ Ho') as [x [-> [Hid Hsucc]]].
    rewrite id_bound_run_mark_sent in Hid.
    simpl. split; [reflexivity|]. split.
    { unfold id_bound at 2; simpl. lia. }
    split.
    + exists [x]. split; [reflexivity|]. split.
      * constructor; [|constructor].
        destruct Hsucc as [Hb [[o [Ho Hu]] Hrest]].
        rewrite id_bound_run_mark_sent in Hb.
        rewrite get_by_id_run_mark_sent in Ho.
        split; [exact Hb|]. split; [|exact Hrest].
        destruct (get_by_id s (r_id r)) as [o0|]; [|discriminate].
        simpl in Ho. injection Ho as <-.
        exists o0. split; [reflexivity|].
        now rewrite Hu, user_id_mark_sent.
      * constructor; [lia|constructor].
    + intros j o1 Hj Hget.
      destruct (get_by_id_found _ _ Hj) as [o Ho].
      exists o. split; [exact Ho|].
      unfold get_by_id in Hget, Ho; simpl in Hget.
      rewrite (find_app_found _ _ _ (mark_sent (r_id r) o)) in Hget.
      * injection Hget as <-. apply user_id_mark_sent.
      * rewrite find_map_preserving by apply id_mark_sent.
        now rewrite Ho.
  - simpl. split; [reflexivity|]. split.
    { rewrite id_bound_run_mark_sent. lia. }
    split.
    + exists []. rewrite app_nil_r. repeat constructor.
    + intros j o1 Hj Hget.
      rewrite get_by_id_run_mark_sent in Hget.
      destruct (get_by_id s j) as [o|]; [|discriminate].
      simpl in Hget. injection Hget as <-.
      exists o. split; [reflexivity|apply user_id_mark_sent].
Qed.

Lemma recurring_sent_cons (r : Reminder) (t : list Reminder) (k : nat) :
  recurring_sent notify k (r :: t)
  = (if succeeded notify k r && is_recurring r then [r] else [])
    ++ recurring_sent notify (S k) t.
Proof.
  unfold recurring_sent; simpl.
  destruct (succeeded notify k r); simpl; [|reflexivity].
  destruct (is_recurring r); reflexivity.
Qed.

Lemma successor_of_earlier (s s1 : Store) (r : Reminder) (x : Expense) :
  id_bound s <= id_bound s1 ->
  (forall o1, get_by_id s1 (r_id r) = Some o1 ->
              exists o, get_by_id s (r_id r) = Some o /\
                        user_id o1 = user_id o) ->
  successor_of tz s1 r x -> successor_of tz s r x.
Proof.
  intros Hb Hlook [Hid [[o1 [Ho1 Hu]] Hrest]].
  split; [lia|]. split; [|exact Hrest].
  destruct (Hlook _ Ho1) as [o [Ho Huo]].
  exists o. split; [exact Ho|congruence].
Qed.

(** The loop, from any state: every reminder of the list is called for,
    in order, and the store has the shape [sweep_shape] describes. *)
Lemma fold_shape (l : list Reminder) :
  forall (s : Store) (calls : list Reminder),
    (forall r, In r l -> In (r_id r) (map id (expenses s))) ->
    let st := fold_left (process_reminder tz paid_default notify) l
                        (s, calls) in
    snd st = calls ++ l /\
    sweep_shape tz notify s (List.length calls) l (fst st).
Proof.
  induction l as [|r t IH]; intros s c Hl; cbn [fold_left].
  - simpl. split; [now rewrite app_nil_r|].
    unfold sweep_shape; simpl. split; [reflexivity|]. split; [lia|].
    exists []. split; [|constructor].
    rewrite app_nil_r, (map_ext _ (fun e => e)) by apply mark_all_nil.
    now rewrite map_id.
  - rewrite process_reminder_eq.
    set (ok := succeeded notify (List.length c) r).
    destruct (after_call_shape s r ok (Hl r (or_introl eq_refl)))
      as [Hu [Hb [[e1 [He1 [HF1 Hfresh]]] Hlook]]].
    set (s1 := after_call tz paid_default s r ok) in *.
    assert (Hids : forall j, In j (map id (expenses s)) ->
                             In j (map id (expenses s1))).
    { intros j Hj. rewrite He1, map_app, in_app_iff. left.
      destruct ok; [now rewrite map_id_mark_sent|now rewrite map_id]. }
    assert (Hl1 : forall r', In r' t -> In (r_id r') (map id (expenses s1))).
    { intros r' Hr'. apply Hids, Hl. now right. }
    destruct (IH s1 (c ++ [r]) Hl1) as [Hc Hshape].
    rewrite length_app, Nat.add_1_r in Hshape.
    split; [rewrite Hc, <- app_assoc; reflexivity|].
    destruct Hshape as [Hu' [Hb' [extra [Hex HF]]]].
    unfold sweep_shape. split; [congruence|]. split; [lia|].
    exists (e1 ++ extra). split.
    + rewrite Hex, He1, map_app, <- app_assoc. f_equal.
      * rewrite map_map. apply map_ext. intros e. simpl sent. fold ok.
        destruct ok; simpl; [apply mark_all_cons|reflexivity].
      * f_equal. rewrite <- (map_id e1) at 2.
        apply map_ext_in. intros x Hx. apply mark_all_fresh.
        intros Hin. apply in_map_iff in Hin.
        destruct Hin as [r' [Hr' Hin]].
        apply sent_incl in Hin.
        assert (Hle := id_in_bound s _ (Hl r' (or_intror Hin))).
        rewrite Forall_forall in Hfresh. specialize (Hfresh x Hx). lia.
    + rewrite recurring_sent_cons. fold ok.
      apply Forall2_app; [exact HF1|].
      eapply Forall2_impl_In; [|exact HF].
      intros a b Ha Hab. apply recurring_sent_incl in Ha.
      eapply successor_of_earlier; [exact Hb| |exact Hab].
      intros o1 Ho1. eapply Hlook; [|exact Ho1].
      apply Hl. now right.
Qed.

End EngineFacts.

(** ** The due-set query *)

Lemma In_due_rows (s : Store) (today : Date) (r : Reminder) :
  In r (due_rows s today) <->
  exists e u, In e (expenses s) /\ In u (users s) /\
              user_id e = u_id u /\ is_due today e = true /\
              r = reminder_row e u.
Proof.
  unfold due_rows. rewrite in_flat_map. split.
  - intros [e [He Hr]].
    destruct (is_due today e) eqn:Hd; [|contradiction].
    apply in_map_iff in Hr. destruct Hr as [u [<- Hu]].
    unfold owners in Hu. apply filter_In in Hu. destruct Hu as [Hu Huid].
    apply Z.eqb_eq in Huid. exists e, u. auto.
  - intros [e [u [He [Hu [Huid [Hd ->]]]]]].
    exists e. split; [exact He|]. rewrite Hd.
    apply in_map. unfold owners. apply filter_In.
    split; [exact Hu|now apply Z.eqb_eq].
Qed.

Lemma In_pendingReminders (s : Store) (today : Date) (r : Reminder) :
  In r (pendingReminders s today) <-> In r (due_rows s today).
Proof. apply order_by_In. Qed.

Lemma pending_id_in_store (s : Store) (today : Date) (r : Reminder) :
  In r (pendingReminders s today) -> In (r_id r) (map id (expenses s)).
Proof.
  intros H. apply In_pendingReminders, In_due_rows in H.
  destruct H as [e [u [He [_ [_ [_ ->]]]]]]. simpl. now apply in_map.
Qed.

Lemma filter_length_perm {A : Type} (p : A -> bool) (l l' : list A) :
  Permutation l l' ->
  List.length (filter p l) = List.length (filter p l').
Proof.
  induction 1 as [|x l l' _ IH|x y l|l l' l'' _ IH1 _ IH2]; simpl.
  - reflexivity.
  - destruct (p x); simpl; congruence.
  - destruct (p x), (p y); reflexivity.
  - congruence.
Qed.

Lemma owners_at_most_one (s : Store) (e : Expense) :
  NoDup (map u_id (users s)) -> (List.length (owners s e) <= 1)%nat.
Proof.
  unfold owners. generalize (users s) as l.
  induction l as [|u t IH]; simpl; intros Hnd; [lia|].
  inversion Hnd as [|x l' Hnotin Hnd']; subst.
  destruct (user_id e =? u_id u) eqn:E; [|now apply IH].
  apply Z.eqb_eq in E. simpl.
  assert (Hnil : filter (fun u0 => user_id e =? u_id u0) t = []).
  { destruct (filter _ t) as [|v vs] eqn:F; [reflexivity|exfalso].
    assert (Hv : In v (filter (fun u0 => user_id e =? u_id u0) t)).
    { rewrite F. now left. }
    apply filter_In in Hv. destruct Hv as [Hv1 Hv2].
    apply Z.eqb_eq in Hv2. apply Hnotin. rewrite <- E, Hv2.
    now apply in_map. }
  rewrite Hnil. simpl. lia.
Qed.

Lemma owners_exactly_one (s : Store) (e : Expense) :
  NoDup (map u_id (users s)) ->
  (exists u, In u (users s) /\ u_id u = user_id e) ->
  List.length (owners s e) = 1%nat.
Proof.
  intros Hnd [u [Hu Huid]].
  assert (Hle := owners_at_most_one s e Hnd).
  assert (Hin : In u (owners s e)).
  { unfold owners. apply filter_In. split; [exact Hu|].
    apply Z.eqb_eq. now symmetry. }
  destruct (owners s e); [contradiction|]. simpl in *. lia.
Qed.

Lemma calls_for_rows_of (i : Z) (e : Expense) (us : list User) :
  calls_for i (map (reminder_row e) us)
  = if id e =? i then map (reminder_row e) us else [].
Proof.
  unfold calls_for. induction us as [|u t IH]; simpl.
  - now destruct (id e =? i).
  - rewrite IH. now destruct (id e =? i).
Qed.

Lemma calls_for_app (i : Z) (l l' : list Reminder) :
  calls_for i (l ++ l') = calls_for i l ++ calls_for i l'.
Proof. apply filter_app. Qed.

Lemma calls_for_due_rows_absent (s : Store) (today : Date) (i : Z) :
  ~ In i (map id (expenses s)) -> calls_for i (due_rows s today) = [].
Proof.
  unfold due_rows. generalize (expenses s) as l.
  induction l as [|e t IH]; simpl; intros Hi; [reflexivity|].
  rewrite calls_for_app, IH by tauto.
  rewrite app_nil_r.
  destruct (is_due today e); [|reflexivity].
  rewrite calls_for_rows_of.
  destruct (Z.eqb_spec (id e) i); [tauto|reflexivity].
Qed.

Lemma calls_for_due_rows_le (s : Store) (today : Date) (i : Z) :
  NoDup (map id (expenses s)) -> NoDup (map u_id (users s)) ->
  (List.length (calls_for i (due_rows s today)) <= 1)%nat.
Proof.
  intros Hnd Hu. unfold due_rows. revert Hnd.
  generalize (expenses s) as l.
  induction l as [|e t IH]; simpl; intros Hnd; [lia|].
  inversion Hnd as [|x l' Hnotin Hnd']; subst.
  rewrite calls_for_app, length_app.
  destruct (Z.eqb_spec (id e) i) as [E|E].
  - assert (Ht : calls_for i (flat_map
        (fun e0 => if is_due today e0
                   then map (reminder_row e0) (owners s e0) else []) t) = []).
    { apply (calls_for_due_rows_absent (mkStore (users s) t 0) today).
      simpl. now rewrite <- E. }
    rewrite Ht. simpl. rewrite Nat.add_0_r.
    destruct (is_due today e); [|simpl; lia].
    rewrite calls_for_rows_of. destruct (Z.eqb_spec (id e) i); [|tauto].
    rewrite length_map. now apply owners_at_most_one.
  - specialize (IH Hnd').
    destruct (is_due today e); [|simpl; lia].
    rewrite calls_for_rows_of. destruct (Z.eqb_spec (id e) i); [tauto|].
    simpl. lia.
Qed.

Lemma calls_for_due_rows_ge (s : Store) (today : Date) (r : Reminder) :
  In r (due_rows s today) ->
  (1 <= List.length (calls_for (r_id r) (due_rows s today)))%nat.
Proof.
  intros H.
  assert (Hin : In r (calls_for (r_id r) (due_rows s today))).
  { unfold calls_for. apply filter_In. split; [exact H|apply Z.eqb_refl]. }
  destruct (calls_for (r_id r) (due_rows s today)); [contradiction|].
  simpl. lia.
Qed.

Lemma calls_for_pending (s : Store) (today : Date) (i : Z) :
  List.length (calls_for i (pendingReminders s today))
  = List.length (calls_for i (due_rows s today)).
Proof.
  unfold calls_for, pendingReminders.
  apply filter_length_perm, Permutation_sym, order_by_perm.
Qed.

Lemma calls_for_nil_iff (i : Z) (l : list Reminder) :
  List.length (calls_for i l) = 0%nat <-> ~ In i (map r_id l).
Proof.
  unfold calls_for. split.
  - intros H Hin. apply in_map_iff in Hin. destruct Hin as [r [Hr Hin]].
    assert (Hf : In r (filter (fun r0 => r_id r0 =? i) l)).
    { apply filter_In. split; [exact Hin|now apply Z.eqb_eq]. }
    destruct (filter _ l); [contradiction|discriminate].
  - intros H. destruct (filter (fun r0 => r_id r0 =? i) l) as [|r t] eqn:F;
      [reflexivity|exfalso].
    assert (Hf : In r (filter (fun r0 => r_id r0 =? i) l)).
    { rewrite F. now left. }
    apply filter_In in Hf. destruct Hf as [Hf1 Hf2]. apply Z.eqb_eq in Hf2.
    apply H. rewrite <- Hf2. now apply in_map.
Qed.

(** ** A whole sweep *)

Section SweepFacts.
Variable tz : Z.
Variable paid_default : option Z.
Variable notify : Notifier.

Lemma sweep_result (s : Store) (today : Date) :
  let st := processReminders tz paid_default notify s today in
  snd st = pendingReminders s today /\
  sweep_shape tz notify s 0 (pendingReminders s today) (fst st).
Proof.
  unfold processReminders.
  apply (fold_shape tz paid_default notify (pendingReminders s today) s []).
  intros r. apply pending_id_in_store.
Qed.

Lemma Forall2_In_r {A B : Type} (P : A -> B -> Prop) (l : list A)
      (l' : list B) (b : B) :
  Forall2 P l l' -> In b l' -> exists a, In a l /\ P a b.
Proof.
  induction 1 as [|a0 b0 l l' H0 _ IH]; simpl; [tauto|].
  intros [<-|Hb]; [eauto|].
  destruct (IH Hb) as [a [Ha HP]]. eauto.
Qed.

Lemma Forall2_In_l {A B : Type} (P : A -> B -> Prop) (l : list A)
      (l' : list B) (a : A) :
  Forall2 P l l' -> In a l -> exists b, In b l' /\ P a b.
Proof.
  induction 1 as [|a0 b0 l l' H0 _ IH]; simpl; [tauto|].
  intros [<-|Ha]; [eauto|].
  destruct (IH Ha) as [b [Hb HP]]. eauto.
Qed.

(** A row of the store after the sweep is a row of the store before it,
    marked or not, or a successor with a new id. *)
Lemma shape_row_cases (s s' : Store) (k : nat) (l : list Reminder)
      (e' : Expense) :
  sweep_shape tz notify s k l s' ->
  In e' (expenses s') ->
  (exists e, In e (expenses s) /\
             e' = mark_all (map r_id (sent notify k l)) e) \/
  (exists r, In r (recurring_sent notify k l) /\ successor_of tz s r e').
Proof.
  intros [_ [_ [extra [Hex HF]]]] Hin.
  rewrite Hex, in_app_iff in Hin. destruct Hin as [Hin|Hin].
  - left. apply in_map_iff in Hin. destruct Hin as [e [<- He]]. eauto.
  - right. eapply Forall2_In_r; eauto.
Qed.

Lemma sent_rows_marked (s s' : Store) (k : nat) (l : list Reminder)
      (e' : Expense) :
  sweep_shape tz notify s k l s' ->
  (forall r, In r l -> In (r_id r) (map id (expenses s))) ->
  In e' (expenses s') ->
  In (id e') (map r_id (sent notify k l)) ->
  email_sent e' = 1.
Proof.
  intros Hshape Hl Hin Hid.
  destruct (shape_row_cases _ _ _ _ _ Hshape Hin)
    as [[e [He ->]]|[r [Hr [Hb _]]]].
  - rewrite id_mark_all in Hid. now rewrite (mark_all_hit _ _ Hid).
  - exfalso. apply in_map_iff in Hid. destruct Hid as [r' [Hr' Hin']].
    apply sent_incl in Hin'.
    assert (Hle := id_in_bound s _ (Hl r' Hin')). lia.
Qed.

Lemma unsent_rows_kept (s s' : Store) (k : nat) (l : list Reminder)
      (e' : Expense) :
  sweep_shape tz notify s k l s' ->
  In (id e') (map id (expenses s)) ->
  In e' (expenses s') ->
  ~ In (id e') (map r_id (sent notify k l)) ->
  In e' (expenses s).
Proof.
  intros Hshape Hold Hin Hid.
  destruct (shape_row_cases _ _ _ _ _ Hshape Hin)
    as [[e [He ->]]|[r [Hr [Hb _]]]].
  - rewrite id_mark_all in Hid. now rewrite (mark_all_fresh _ _ Hid).
  - exfalso. assert (Hle := id_in_bound s _ Hold). lia.
Qed.

Lemma after_call_nodup (s : Store) (r : Reminder) (ok : bool) :
  NoDup (map id (expenses s)) ->
  NoDup (map id (expenses (after_call tz paid_default s r ok))).
Proof.
  intros Hnd. unfold after_call. destruct ok; [|exact Hnd].
  assert (Hnd1 : NoDup (map id (expenses (run_mark_sent s (r_id r))))).
  { simpl. now rewrite map_id_mark_sent. }
  destruct (is_recurring r); [|exact Hnd1].
  unfold createNextRecurringExpense.
  destruct (get_by_id (run_mark_sent s (r_id r)) (r_id r)); [|exact Hnd1].
  cbn [expenses]. rewrite map_app. cbn [map id].
  apply NoDup_app; [exact Hnd1|repeat constructor; simpl; tauto|].
  intros j Hj [<-|[]]. apply max_id_ge in Hj. unfold fresh_id in Hj. lia.
Qed.

Lemma fold_nodup (l : list Reminder) :
  forall (s : Store) (calls : list Reminder),
    NoDup (map id (expenses s)) ->
    NoDup (map id (expenses (fst (fold_left
      (process_reminder tz paid_default notify) l (s, calls))))).
Proof.
  induction l as [|r t IH]; intros s c Hnd; cbn [fold_left].
  - exact Hnd.
  - rewrite process_reminder_eq. apply IH. now apply after_call_nodup.
Qed.

Lemma sweep_wf (s : Store) (today : Date) :
  NoDup (map id (expenses s)) ->
  NoDup (map id (expenses
    (fst (processReminders tz paid_default notify s today)))).
Proof. apply fold_nodup. Qed.

End SweepFacts.

Lemma nodup_id_inj (l : list Expense) (a b : Expense) :
  NoDup (map id l) -> In a l -> In b l -> id a = id b -> a = b.
Proof.
  induction l as [|x t IH]; simpl; [tauto|].
  intros Hnd Ha Hb Hab. inversion Hnd as [|y l' Hnotin Hnd']; subst.
  destruct Ha as [<-|Ha], Hb as [<-|Hb]; auto.
  - exfalso. apply Hnotin. rewrite Hab. now apply in_map.
  - exfalso. apply Hnotin. rewrite <- Hab. now apply in_map.
Qed.

(** ** The claims about the sweep *)

Lemma wf_rent_only : wf_store Sample.rent_only.
Proof.
  repeat split; simpl.
  - repeat constructor; simpl; tauto.
  - repeat constructor; simpl; tauto.
  - intros e [<-|[]]. exists Sample.asha. simpl. auto.
Qed.

Lemma delivers_all_succeed : all_succeed Sample.delivers.
Proof. intros k a. eexists. split; reflexivity. Qed.

(** C1.  An expense that is due when a sweep starts (its reminder date
    is not after today and its flag is 0) has, after a sweep in which
    every notifier call succeeds, its flag at 1, and exactly one call of
    the sweep was made for it. *)
Theorem due_expense_notified_exactly_once
        (tz : Z) (paid_default : option Z) (notify : Notifier)
        (s : Store) (today : Date) (e : Expense) :
  wf_store s ->
  all_succeed notify ->
  In e (expenses s) ->
  date_leb (reminder_date e) today = true ->
  email_sent e = 0 ->
  let st := processReminders tz paid_default notify s today in
  In (set_email_sent 1 e) (expenses (fst st)) /\
  (forall e', In e' (expenses (fst st)) -> id e' = id e ->
              email_sent e' = 1) /\
  List.length (calls_for (id e) (snd st)) = 1%nat.
Proof.
  intros [Hnd [Hnu Hfk]] Hall He Hdate Hflag st.
  destruct (sweep_result tz paid_default notify s today) as [Hcalls Hshape].
  fold st in Hcalls, Hshape.
  destruct (Hfk e He) as [u [Hu Huid]].
  assert (Hdue : is_due today e = true).
  { unfold is_due. rewrite Hdate, Hflag. reflexivity. }
  assert (Hrow : In (reminder_row e u) (due_rows s today)).
  { apply In_due_rows. exists e, u. auto. }
  assert (Hsent : In (id e)
                     (map r_id (sent notify 0 (pendingReminders s today)))).
  { rewrite (all_succeed_sent _ _ _ Hall).
    change (id e) with (r_id (reminder_row e u)).
    apply in_map. now apply In_pendingReminders. }
  split; [|split].
  - destruct Hshape as [_ [_ [extra [Hex _]]]].
    rewrite Hex. apply in_app_iff. left.
    rewrite <- (mark_all_hit _ _ Hsent). now apply in_map.
  - intros e' He' Hid.
    eapply sent_rows_marked; eauto.
    + intros r. apply pending_id_in_store.
    + now rewrite Hid.
  - rewrite Hcalls, calls_for_pending.
    assert (Hle := calls_for_due_rows_le s today (id e) Hnd Hnu).
    assert (Hge := calls_for_due_rows_ge s today _ Hrow).
    simpl in Hge. lia.
Qed.

Lemma due_expense_notified_exactly_once_witness :
  let st := processReminders 0 None Sample.delivers Sample.rent_only
                             (mkDate 2024 3 10) in
  In (set_email_sent 1 Sample.rent) (expenses (fst st)) /\
  (forall e', In e' (expenses (fst st)) -> id e' = id Sample.rent ->
              email_sent e' = 1) /\
  List.length (calls_for (id Sample.rent) (snd st)) = 1%nat.
Proof.
  apply (due_expense_notified_exactly_once
           0 None Sample.delivers Sample.rent_only (mkDate 2024 3 10)
           Sample.rent).
  - exact wf_rent_only.
  - exact delivers_all_succeed.
  - simpl. auto.
  - reflexivity.
  - reflexivity.
Defined.

(** C3.  After a sweep in which every send succeeded, the due set of a
    second sweep over the resulting store holds none of the expenses of
    the first due set, whatever the date and the notifier of the second
    sweep; and over the two sweeps together no expense is called for
    more than once. *)
Theorem second_sweep_finds_nothing_sent
        (tz : Z) (paid_default : option Z) (notify1 notify2 : Notifier)
        (s : Store) (today today2 : Date) :
  wf_store s ->
  all_succeed notify1 ->
  let st1 := processReminders tz paid_default notify1 s today in
  let st2 := processReminders tz paid_default notify2 (fst st1) today2 in
  (forall r, In r (pendingReminders s today) ->
             ~ In (r_id r) (map r_id (pendingReminders (fst st1) today2))) /\
  (forall i, (List.length (calls_for i (snd st1 ++ snd st2)) <= 1)%nat).
Proof.
  intros [Hnd [Hnu Hfk]] Hall st1 st2.
  destruct (sweep_result tz paid_default notify1 s today) as [Hc1 Hshape].
  destruct (sweep_result tz paid_default notify2 (fst st1) today2)
    as [Hc2 _].
  fold st1 in Hc1, Hshape. fold st2 in Hc2.
  assert (Hnone : forall r, In r (pendingReminders s today) ->
            ~ In (r_id r) (map r_id (pendingReminders (fst st1) today2))).
  { intros r Hr Hin. apply in_map_iff in Hin.
    destruct Hin as [r2 [Hid Hr2]].
    apply In_pendingReminders, In_due_rows in Hr2.
    destruct Hr2 as [e2 [u2 [He2 [_ [_ [Hdue ->]]]]]]. simpl in Hid.
    unfold is_due in Hdue. apply andb_true_iff in Hdue.
    destruct Hdue as [_ Hflag]. apply Z.eqb_eq in Hflag.
    assert (H1 : email_sent e2 = 1); [|lia].
    eapply sent_rows_marked; eauto.
    - intros r'. apply pending_id_in_store.
    - rewrite (all_succeed_sent _ _ _ Hall), Hid. now apply in_map. }
  split; [exact Hnone|].
  intros i. rewrite calls_for_app, length_app, Hc1, Hc2.
  assert (Hnd1 : NoDup (map id (expenses (fst st1)))).
  { now apply sweep_wf. }
  assert (Hnu1 : NoDup (map u_id (users (fst st1)))).
  { destruct Hshape as [-> _]. exact Hnu. }
  rewrite !calls_for_pending.
  assert (H1 := calls_for_due_rows_le s today i Hnd Hnu).
  assert (H2 := calls_for_due_rows_le (fst st1) today2 i Hnd1 Hnu1).
  destruct (List.length (calls_for i (due_rows s today))) as [|n] eqn:E1;
    [simpl; exact H2|].
  assert (Hz : List.length (calls_for i (due_rows (fst st1) today2)) = 0%nat);
    [|lia].
  rewrite <- calls_for_pending. apply calls_for_nil_iff.
  destruct (calls_for i (due_rows s today)) as [|r t] eqn:F;
    [discriminate|].
  assert (Hr : In r (calls_for i (due_rows s today))).
  { rewrite F. now left. }
  unfold calls_for in Hr. apply filter_In in Hr. destruct Hr as [Hr Hi].
  apply Z.eqb_eq in Hi. rewrite <- Hi.
  apply Hnone. now apply In_pendingReminders.
Qed.

Lemma second_sweep_finds_nothing_sent_witness :
  let st1 := processReminders 0 None Sample.delivers Sample.rent_only
                              (mkDate 2024 3 10) in
  let st2 := processReminders 0 None Sample.delivers (fst st1)
                              (mkDate 2024 3 10) in
  (forall r, In r (pendingReminders Sample.rent_only (mkDate 2024 3 10)) ->
             ~ In (r_id r)
                  (map r_id (pendingReminders (fst st1) (mkDate 2024 3 10))))
  /\
  (forall i, (List.length (calls_for i (snd st1 ++ snd st2)) <= 1)%nat).
Proof.
  apply (second_sweep_finds_nothing_sent
           0 None Sample.delivers Sample.delivers Sample.rent_only
           (mkDate 2024 3 10) (mkDate 2024 3 10)).
  - exact wf_rent_only.
  - exact delivers_all_succeed.
Defined.



Lemma nth_sent (notify : Notifier) (l : list Reminder) :
  forall (k n : nat) (r : Reminder),
    nth_error l n = Some r ->
    succeeded notify (k + n) r = true ->
    In r (sent notify k l).
Proof.
  induction l as [|x t IH]; intros k [|n] r; simpl; try discriminate.
  - intros H. injection H as ->. rewrite Nat.add_0_r. intros ->. now left.
  - intros Hn Hs. rewrite Nat.add_succ_r in Hs.
    specialize (IH (S k) n r Hn Hs).
    destruct (succeeded notify k x); [now right|exact IH].
Qed.

Lemma not_succeeded (notify : Notifier) (k : nat) (r : Reminder) :
  (forall result, notify k (email_args r) = Returned result ->
                  success result = false) ->
  succeeded notify k r = false.
Proof.
  intros H. unfold succeeded.
  destruct (notify k (email_args r)) as [res|m]; [now apply H|reflexivity].
Qed.

(** C5.  When the call for an item of the due set does not return a
    success (it returns a failure, or it throws), the sweep still calls
    the notifier for every item of the due set in order; the row of the
    failed item is in the store afterwards exactly as it was, flag 0;
    the rows inserted by the sweep are the successors of the recurring
    items sent before and after the failed one, none for the failed
    item; and every later item whose call succeeds has its flag at 1. *)
Theorem failed_item_does_not_stop_the_sweep
        (tz : Z) (paid_default : option Z) (notify : Notifier)
        (s : Store) (today : Date)
        (l1 l2 : list Reminder) (r : Reminder) :
  NoDup (map id (expenses s)) ->
  NoDup (map u_id (users s)) ->
  pendingReminders s today = l1 ++ r :: l2 ->
  (forall result,
      notify (List.length l1) (email_args r) = Returned result ->
      success result = false) ->
  let st := processReminders tz paid_default notify s today in
  snd st = l1 ++ r :: l2 /\
  (exists e, In e (expenses s) /\ id e = r_id r /\ email_sent e = 0 /\
             In e (expenses (fst st))) /\
  (forall e', In e' (expenses (fst st)) -> id e' = r_id r ->
              In e' (expenses s) /\ email_sent e' = 0) /\
  (exists extra,
      expenses (fst st)
      = map (mark_all (map r_id (sent notify 0 l1 ++
                                 sent notify (S (List.length l1)) l2)))
            (expenses s) ++ extra /\
      Forall2 (successor_of tz s)
              (recurring_sent notify 0 l1 ++
               recurring_sent notify (S (List.length l1)) l2)
              extra) /\
  (forall n r', nth_error l2 n = Some r' ->
                succeeded notify (S (List.length l1) + n) r' = true ->
                forall e', In e' (expenses (fst st)) -> id e' = r_id r' ->
                           email_sent e' = 1).
Proof.
  intros Hnd Hnu Hpend Hfail st.
  destruct (sweep_result tz paid_default notify s today) as [Hcalls Hshape].
  fold st in Hcalls, Hshape. rewrite Hpend in Hcalls, Hshape.
  apply not_succeeded in Hfail.
  assert (Hsent : sent notify 0 (l1 ++ r :: l2)
                  = sent notify 0 l1 ++ sent notify (S (List.length l1)) l2).
  { rewrite sent_app. simpl. now rewrite Hfail. }
  assert (Hrin : In r (pendingReminders s today)).
  { rewrite Hpend. apply in_app_iff. right. now left. }
  assert (Hlstore : forall r0, In r0 (l1 ++ r :: l2) ->
                               In (r_id r0) (map id (expenses s))).
  { intros r0 H0. rewrite <- Hpend in H0.
    eapply pending_id_in_store; eauto. }
  (* the failed item is the only row of the due set with its id *)
  assert (Honly : ~ In (r_id r) (map r_id (sent notify 0 (l1 ++ r :: l2)))).
  { assert (Hle := calls_for_due_rows_le s today (r_id r) Hnd Hnu).
    rewrite <- calls_for_pending, Hpend, calls_for_app, length_app in Hle.
    unfold calls_for at 2 in Hle. simpl in Hle.
    rewrite Z.eqb_refl in Hle. simpl in Hle.
    fold (calls_for (r_id r) l2) in Hle.
    assert (H1 : ~ In (r_id r) (map r_id l1)).
    { apply calls_for_nil_iff. lia. }
    assert (H2 : ~ In (r_id r) (map r_id l2)).
    { apply calls_for_nil_iff. lia. }
    rewrite Hsent, map_app, in_app_iff.
    intros [H|H]; apply in_map_iff in H; destruct H as [r0 [Hid H0]];
      apply sent_incl in H0; [apply H1|apply H2];
      rewrite <- Hid; now apply in_map. }
  destruct (proj1 (In_due_rows s today r)
                  (proj1 (In_pendingReminders s today r) Hrin))
    as [e [u [He [_ [_ [Hdue Hr]]]]]].
  assert (Hid : id e = r_id r) by (now rewrite Hr).
  assert (Hflag : email_sent e = 0).
  { unfold is_due in Hdue. apply andb_true_iff in Hdue.
    now apply Z.eqb_eq. }
  split; [exact Hcalls|]. split; [|split; [|split]].
  - exists e. repeat split; auto.
    destruct Hshape as [_ [_ [extra [Hex _]]]]. rewrite Hex.
    apply in_app_iff. left.
    rewrite <- (mark_all_fresh
                  (map r_id (sent notify 0 (l1 ++ r :: l2))) e)
      by (now rewrite Hid).
    now apply in_map.
  - intros e' He' Hid'.
    assert (Hold : In e' (expenses s)).
    { eapply unsent_rows_kept; eauto.
      - rewrite Hid'. now apply Hlstore, in_app_iff; right; left.
      - now rewrite Hid'. }
    split; [exact Hold|].
    assert (e' = e) by (eapply nodup_id_inj; eauto; congruence).
    now subst.
  - destruct Hshape as [_ [_ [extra [Hex HF]]]].
    exists extra. rewrite <- Hsent. split; [exact Hex|].
    unfold recurring_sent in *. rewrite <- filter_app, <- Hsent.
    exact HF.
  - intros n r' Hn Hok e' He' Hid'.
    eapply sent_rows_marked; eauto.
    rewrite Hid', Hsent, map_app, in_app_iff. right.
    apply in_map. eapply nth_sent; eauto.
Qed.

Lemma failed_item_does_not_stop_the_sweep_witness :
  let st := processReminders 0 None (Sample.fails_for "Gym")
                             Sample.rent_and_gym (mkDate 2024 3 10) in
  snd st = [reminder_row Sample.gym Sample.asha;
            reminder_row Sample.rent Sample.asha] /\
  (exists e, In e (expenses Sample.rent_and_gym) /\
             id e = 2 /\ email_sent e = 0 /\ In e (expenses (fst st))).
Proof.
  pose proof (failed_item_does_not_stop_the_sweep
                0 None (Sample.fails_for "Gym") Sample.rent_and_gym
                (mkDate 2024 3 10)
                [] [reminder_row Sample.rent Sample.asha]
                (reminder_row Sample.gym Sample.asha)) as H.
  simpl in H. intros st.
  refine ((fun H' => conj (proj1 H') (proj1 (proj2 H'))) (H _ _ _ _)).
  - repeat constructor; simpl; intuition discriminate.
  - repeat constructor; simpl; tauto.
  - reflexivity.
  - intros result Hr. injection Hr as <-. reflexivity.
Defined.

Lemma Forall2_map_r {A B : Type} (P : A -> B -> Prop) (f : A -> B)
      (l : list A) :
  (forall a, In a l -> P a (f a)) -> Forall2 P l (map f l).
Proof.
  induction l as [|a t IH]; simpl; intros H; constructor.
  - apply H. now left.
  - apply IH. intros a' Ha'. apply H. now right.
Qed.

Lemma unchanged_but_flag_refl (e : Expense) : unchanged_but_flag e e.
Proof. unfold unchanged_but_flag. tauto. Qed.

Lemma unchanged_but_flag_set (v : Z) (e : Expense) :
  unchanged_but_flag e (set_email_sent v e).
Proof. unfold unchanged_but_flag. simpl. tauto. Qed.

(** C8.  After a sweep the store holds, in place, every row it held
    before, with every column but [email_sent] as it was ([paid],
    [paid_at], [due_date] and [reminder_date] among them) and
    [email_sent] changed, to 1, only for an expense whose call reported
    success; and behind them one new row for each recurring reminder
    sent, with the owner, name, amount and category of the original,
    [recurring] at ['yes'] and [email_sent] at 0. *)
Theorem sweep_frame
        (tz : Z) (paid_default : option Z) (notify : Notifier)
        (s : Store) (today : Date) :
  NoDup (map id (expenses s)) ->
  let st := processReminders tz paid_default notify s today in
  users (fst st) = users s /\
  exists kept extra,
    expenses (fst st) = kept ++ extra /\
    Forall2 (fun e e' =>
               unchanged_but_flag e e' /\
               (email_sent e' = email_sent e \/
                (email_sent e' = 1 /\
                 In (id e)
                    (map r_id (sent notify 0 (pendingReminders s today))))))
            (expenses s) kept /\
    Forall2 (fun r x =>
               exists e, In e (expenses s) /\ id e = r_id r /\
                         user_id x = user_id e /\
                         expense_name x = expense_name e /\
                         amount x = amount e /\
                         category x = category e /\
                         recurring x = "yes"%string /\
                         email_sent x = 0)
            (recurring_sent notify 0 (pendingReminders s today)) extra.
Proof.
  intros Hnd st.
  destruct (sweep_result tz paid_default notify s today) as [_ Hshape].
  fold st in Hshape. destruct Hshape as [Hu [_ [extra [Hex HF]]]].
  split; [exact Hu|].
  eexists. exists extra. split; [exact Hex|]. split.
  - apply Forall2_map_r. intros e _. unfold mark_all.
    destruct (existsb (Z.eqb (id e)) _) eqn:E.
    + split; [apply unchanged_but_flag_set|]. right. split; [reflexivity|].
      apply existsb_exists in E. destruct E as [j [Hj E]].
      apply Z.eqb_eq in E. now subst.
    + split; [apply unchanged_but_flag_refl|]. now left.
  - eapply Forall2_impl_In; [|exact HF].
    intros r x Hr [_ [[o [Ho Huo]] [Hn [Ha [Hc [_ [_ [Hrec Hflag]]]]]]]].
    apply recurring_sent_incl, In_pendingReminders, In_due_rows in Hr.
    destruct Hr as [e [u [He [_ [_ [_ Hrow]]]]]].
    unfold get_by_id in Ho. apply find_some in Ho.
    destruct Ho as [Hoin Hoid]. apply Z.eqb_eq in Hoid.
    assert (o = e).
    { eapply nodup_id_inj; eauto. rewrite Hoid, Hrow. reflexivity. }
    subst o. exists e. rewrite Hrow in *. simpl in *.
    repeat split; auto.
Qed.

(** The scenario of the specification, with the successor row spelled
    out. *)
Lemma sweep_frame_witness :
  let st := processReminders 0 None Sample.delivers Sample.rent_only
                             (mkDate 2024 3 10) in
  users (fst st) = users Sample.rent_only /\
  expenses (fst st)
  = [set_email_sent 1 Sample.rent;
     mkExpense 2 1 "Rent" (12000 # 1) "Bills"
               (mkDate 2024 4 15) (mkDate 2024 4 10) "yes" 0 None None].
Proof.
  intros st.
  refine ((fun H => conj (proj1 H) eq_refl)
            (sweep_frame 0 None Sample.delivers Sample.rent_only
                         (mkDate 2024 3 10) _)).
  repeat constructor; simpl; tauto.
Defined.

(** ** Day numbers and calendar dates *)

Lemma days_from_civil_era (y m d : Z) :
  days_from_civil y m d
  = (march_year y m / 400) * 146097
    + doe_of (march_year y m mod 400) m d - 719468.
Proof.
  unfold days_from_civil, doe_of. cbv zeta.
  fold (march_year y m). set (Y := march_year y m).
  replace (Y - Y / 400 * 400) with (Y mod 400)
    by (rewrite Z.mod_eq by lia; lia).
  lia.
Qed.

Lemma civil_from_days_era (era doe : Z) :
  0 <= doe < 146097 ->
  civil_from_days (era * 146097 + doe - 719468)
  = shift_year (era * 400) (civil_from_days (doe - 719468)).
Proof.
  intros H. unfold civil_from_days. cbv zeta.
  replace (era * 146097 + doe - 719468 + 719468) with (doe + era * 146097)
    by lia.
  replace (doe - 719468 + 719468) with doe by lia.
  rewrite Z.div_add by lia. rewrite (Z.div_small doe 146097) by lia.
  replace (doe + era * 146097 - (0 + era) * 146097) with doe by lia.
  replace (doe - 0 * 146097) with doe by lia.
  unfold shift_year; simpl.
  set (yoe := (doe - doe / 1460 + doe / 36524 - doe / 146096) / 365).
  set (doy := doe - (365 * yoe + yoe / 4 - yoe / 100)).
  set (mp := (5 * doy + 2) / 153).
  destruct (_ <=? 2); f_equal; lia.
Qed.

Lemma in_zrange (lo : Z) (n : nat) (x : Z) :
  lo <= x < lo + Z.of_nat n -> In x (zrange lo n).
Proof.
  intros H. unfold zrange. apply in_map_iff.
  exists (Z.to_nat (x - lo)). split; [lia|].
  apply in_seq. lia.
Qed.

Lemma forallb_zrange (f : Z -> bool) (lo : Z) (n : nat) :
  forallb f (zrange lo n) = true ->
  forall x, lo <= x < lo + Z.of_nat n -> f x = true.
Proof.
  intros H x Hx. rewrite forallb_forall in H. now apply H, in_zrange.
Qed.

Lemma era_check_true : forallb era_year_ok (zrange 0 400) = true.
Proof. vm_compute. reflexivity. Qed.

Lemma date_eqb_eq (a b : Date) : date_eqb a b = true -> a = b.
Proof.
  unfold date_eqb. rewrite !andb_true_iff, !Z.eqb_eq.
  destruct a, b; simpl. intros [[-> ->] ->]. reflexivity.
Qed.

Lemma leap_march_year (y : Z) : leap ((y - 1) mod 400 + 1) = leap y.
Proof.
  unfold leap.
  assert (H4 : ((y - 1) mod 400 + 1) mod 4 = y mod 4)
    by (Z.div_mod_to_equations; lia).
  assert (H100 : ((y - 1) mod 400 + 1) mod 100 = y mod 100)
    by (Z.div_mod_to_equations; lia).
  assert (H400 : ((y - 1) mod 400 + 1) mod 400 = y mod 400)
    by (Z.div_mod_to_equations; lia).
  now rewrite H4, H100, H400.
Qed.

Lemma days_in_month_march_year (y m : Z) :
  days_in_month (if m <=? 2 then march_year y m mod 400 + 1
                 else march_year y m mod 400) m
  = days_in_month y m.
Proof.
  unfold days_in_month, march_year.
  destruct (Z.eqb_spec m 2) as [->|].
  - simpl. now rewrite leap_march_year.
  - reflexivity.
Qed.

Lemma era_check_at (yoe m d : Z) :
  0 <= yoe < 400 -> 1 <= m <= 12 ->
  1 <= d <= days_in_month (if m <=? 2 then yoe + 1 else yoe) m ->
  era_date_ok yoe m d = true.
Proof.
  intros Hy Hm Hd.
  assert (H1 : era_year_ok yoe = true).
  { apply (forallb_zrange era_year_ok 0 400 era_check_true). lia. }
  assert (H2 : era_month_ok yoe m = true).
  { apply (forallb_zrange (era_month_ok yoe) 1 12 H1). lia. }
  apply (forallb_zrange (era_date_ok yoe m) 1 _ H2). lia.
Qed.

Lemma valid_date_spec (d : Date) :
  valid_date d = true <->
  1 <= month d <= 12 /\ 1 <= day d <= days_in_month (year d) (month d).
Proof.
  unfold valid_date. rewrite !andb_true_iff, !Z.leb_le. tauto.
Qed.

Lemma civil_roundtrip (d : Date) :
  valid_date d = true ->
  civil_from_days (days_from_civil (year d) (month d) (day d)) = d.
Proof.
  intros Hv. apply valid_date_spec in Hv. destruct Hv as [Hm Hd].
  destruct d as [y m dd]; simpl in *.
  rewrite days_from_civil_era.
  set (Y := march_year y m).
  assert (Hyoe : 0 <= Y mod 400 < 400) by (apply Z.mod_pos_bound; lia).
  assert (Hok := era_check_at (Y mod 400) m dd Hyoe Hm).
  unfold Y in Hok. rewrite days_in_month_march_year in Hok.
  specialize (Hok Hd). fold Y in Hok.
  unfold era_date_ok in Hok. rewrite !andb_true_iff in Hok.
  destruct Hok as [[H0 H1] Heq].
  apply Z.leb_le in H0. apply Z.ltb_lt in H1. apply date_eqb_eq in Heq.
  rewrite civil_from_days_era by lia. rewrite Heq.
  unfold shift_year; simpl. f_equal.
  assert (HY : Y = 400 * (Y / 400) + Y mod 400) by (apply Z.div_mod; lia).
  unfold Y, march_year in *. destruct (m <=? 2); lia.
Qed.

Lemma days_from_civil_add (y m d k : Z) :
  days_from_civil y m (d + k) = days_from_civil y m d + k.
Proof. unfold days_from_civil. cbv zeta. lia. Qed.

Lemma days_before_march (y : Z) :
  let N := fun Y => (Y / 400) * 146097
                    + ((Y - Y / 400 * 400) * 365
                       + (Y - Y / 400 * 400) / 4
                       - (Y - Y / 400 * 400) / 100) in
  N y - N (y - 1) = 365 + (if leap y then 1 else 0).
Proof.
  cbv zeta. unfold leap.
  destruct (Z.eqb_spec (y mod 4) 0), (Z.eqb_spec (y mod 100) 0),
    (Z.eqb_spec (y mod 400) 0); simpl;
    Z.div_mod_to_equations; lia.
Qed.

Lemma days_from_civil_next_month (y m : Z) :
  1 <= m <= 12 ->
  days_from_civil y m (days_in_month y m + 1)
  = days_from_civil (fst (next_month y m)) (snd (next_month y m)) 1.
Proof.
  intros Hm.
  assert (Hcases : m = 1 \/ m = 2 \/ m = 3 \/ m = 4 \/ m = 5 \/ m = 6 \/
                   m = 7 \/ m = 8 \/ m = 9 \/ m = 10 \/ m = 11 \/ m = 12)
    by lia.
  destruct Hcases as [->|[E|[->|[->|[->|[->|[->|[->|[->|[->|[->| ->]]]]]]]]]]].
  2:{ subst m. assert (H := days_before_march y). cbv zeta beta in H.
      unfold next_month, days_in_month, days_from_civil.
      change (2 =? 12) with false. change (2 =? 2) with true.
      change (2 <=? 2) with true. change (2 <? 2) with false.
      cbv iota zeta beta. cbn [fst snd].
      change (2 + 1 <=? 2) with false. change (2 <? 2 + 1) with true.
      cbv iota.
      change ((153 * (2 + 9) + 2) / 5) with 337.
      change ((153 * (2 + 1 - 3) + 2) / 5) with 0.
      destruct (leap y); lia. }
  all: unfold next_month, days_in_month, days_from_civil; simpl;
    try (replace (y + 1 - 1) with y by lia); lia.
Qed.

Section NextMonthUTC.
Import JSDate.

Lemma Day_midnight (n : Z) : Day (n * msPerDay) = n.
Proof. unfold Day, msPerDay. apply Z.div_mul. lia. Qed.

Lemma next_month_date_as_days (tz : Z) (d : Date) :
  valid_date d = true ->
  0 <= tz < 1440 ->
  next_month_date tz d
  = civil_from_days
      (days_from_civil (fst (next_month (year d) (month d)))
                       (snd (next_month (year d) (month d))) (day d)).
Proof.
  intros Hv Htz.
  assert (Hrt := civil_roundtrip d Hv).
  apply valid_date_spec in Hv. destruct Hv as [Hm Hd].
  unfold next_month_date, setMonth, getMonth, parse, toISODate.
  cbv zeta.
  set (D := days_from_civil (year d) (month d) (day d)) in *.
  assert (HDay : Day (LocalTime tz (D * msPerDay)) = D).
  { unfold Day, LocalTime, msPerDay, msPerMinute.
    symmetry. apply (Z.div_unique _ _ _ (tz * 60000)); lia. }
  assert (HT : TimeWithinDay (LocalTime tz (D * msPerDay))
               = tz * msPerMinute).
  { unfold TimeWithinDay, LocalTime, msPerDay, msPerMinute.
    symmetry. apply (Z.mod_unique _ _ D); lia. }
  rewrite HDay, HT, Hrt.
  unfold UTC.
  replace (MakeDay (year d) (month d - 1 + 1) (day d) * msPerDay
           + tz * msPerMinute - tz * msPerMinute)
    with (MakeDay (year d) (month d - 1 + 1) (day d) * msPerDay) by lia.
  rewrite Day_midnight. f_equal.
  unfold MakeDay. cbv zeta.
  replace (month d - 1 + 1) with (month d) by lia.
  replace (days_from_civil (year d + month d / 12) (month d mod 12 + 1) 1
           + day d - 1)
    with (days_from_civil (year d + month d / 12) (month d mod 12 + 1)
                          (1 + (day d - 1)))
    by (rewrite days_from_civil_add; lia).
  replace (1 + (day d - 1)) with (day d) by lia.
  unfold next_month.
  destruct (Z.eqb_spec (month d) 12) as [E|E].
  - rewrite E. reflexivity.
  - simpl. rewrite Z.div_small, Z.mod_small by lia.
    f_equal. lia.
Qed.

End NextMonthUTC.

Lemma days_in_month_bounds (y m : Z) : 28 <= days_in_month y m <= 31.
Proof.
  unfold days_in_month.
  destruct (m =? 2); [destruct (leap y); lia|].
  destruct (_ || _); lia.
Qed.

Lemma next_month_range (y m : Z) :
  1 <= m <= 12 -> 1 <= snd (next_month y m) <= 12.
Proof.
  intros H. unfold next_month.
  destruct (Z.eqb_spec m 12); simpl; lia.
Qed.

Lemma civil_of_month_day (y m k : Z) :
  1 <= m <= 12 -> 1 <= k <= 56 ->
  civil_from_days (days_from_civil y m k) = month_day y m k.
Proof.
  intros Hm Hk. unfold month_day. cbv zeta.
  assert (Hb := days_in_month_bounds y m).
  destruct (Z.leb_spec k (days_in_month y m)) as [Hle|Hgt].
  - apply (civil_roundtrip (mkDate y m k)).
    apply valid_date_spec; simpl. lia.
  - replace k with (days_in_month y m + 1 + (k - days_in_month y m - 1))
      at 1 by lia.
    rewrite days_from_civil_add, days_from_civil_next_month by lia.
    rewrite <- days_from_civil_add.
    replace (1 + (k - days_in_month y m - 1)) with (k - days_in_month y m)
      by lia.
    apply (civil_roundtrip
             (mkDate (fst (next_month y m)) (snd (next_month y m))
                     (k - days_in_month y m))).
    apply valid_date_spec; simpl.
    assert (Hr := next_month_range y m Hm).
    assert (Hb' := days_in_month_bounds (fst (next_month y m))
                                        (snd (next_month y m))).
    lia.
Qed.

Lemma next_month_date_month_day (tz : Z) (d : Date) :
  valid_date d = true ->
  0 <= tz < 1440 ->
  next_month_date tz d
  = month_day (fst (next_month (year d) (month d)))
              (snd (next_month (year d) (month d))) (day d).
Proof.
  intros Hv Htz. rewrite next_month_date_as_days by assumption.
  apply valid_date_spec in Hv. destruct Hv as [Hm Hd].
  assert (Hb := days_in_month_bounds (year d) (month d)).
  apply civil_of_month_day; [now apply next_month_range|lia].
Qed.

Lemma next_month_check_valid (d : Date) :
  valid_date d = true -> next_month_check d = true.
Proof.
  intros Hv. unfold next_month_check. cbv zeta.
  rewrite (next_month_date_month_day 0 d Hv) by lia.
  unfold month_day, next_month. cbv zeta.
  destruct (month d =? 12); cbn [fst snd].
  - change (1 =? 12) with false. cbv iota.
    destruct (day d <=? days_in_month (year d + 1) 1);
      unfold date_eqb; simpl; rewrite !Z.eqb_refl; reflexivity.
  - destruct (month d + 1 =? 12);
      destruct (day d <=? days_in_month (year d) (month d + 1));
      unfold date_eqb; cbn [year month day fst snd];
      rewrite !Z.eqb_refl; reflexivity.
Qed.

Lemma dates_of_years_valid (from count : nat) (d : Date) :
  In d (dates_of_years from count) -> valid_date d = true.
Proof.
  unfold dates_of_years. intros H.
  apply in_flat_map in H. destruct H as [y [_ H]].
  apply in_flat_map in H. destruct H as [m [Hm H]].
  apply in_map_iff in H. destruct H as [k [<- Hk]].
  apply in_seq in Hm. apply in_seq in Hk.
  apply valid_date_spec; simpl. lia.
Qed.


Lemma next_prev_month (y m : Z) :
  1 <= m <= 12 ->
  next_month (fst (prev_month y m)) (snd (prev_month y m)) = (y, m).
Proof.
  intros H. unfold prev_month, next_month.
  destruct (Z.eqb_spec m 1) as [->|]; simpl.
  - f_equal. lia.
  - destruct (Z.eqb_spec (m - 1) 12); [lia|]. f_equal. lia.
Qed.

Lemma prev_month_range (y m : Z) :
  1 <= m <= 12 -> 1 <= snd (prev_month y m) <= 12.
Proof.
  intros H. unfold prev_month. destruct (Z.eqb_spec m 1); simpl; lia.
Qed.

Section NextMonthWest.
Import JSDate.

Lemma MakeDay_next (y m dt : Z) :
  1 <= m <= 12 ->
  MakeDay y m dt
  = days_from_civil (fst (next_month y m)) (snd (next_month y m)) dt.
Proof.
  intros Hm. unfold MakeDay. cbv zeta.
  replace (days_from_civil (y + m / 12) (m mod 12 + 1) 1 + dt - 1)
    with (days_from_civil (y + m / 12) (m mod 12 + 1) (1 + (dt - 1)))
    by (rewrite days_from_civil_add; lia).
  replace (1 + (dt - 1)) with dt by lia.
  unfold next_month. destruct (Z.eqb_spec m 12) as [->|].
  - reflexivity.
  - simpl. rewrite Z.div_small, Z.mod_small by lia. f_equal. lia.
Qed.

Lemma next_month_date_west_month_day (tz : Z) (d : Date) :
  valid_date d = true ->
  -1440 <= tz < 0 ->
  next_month_date tz d
  = if day d =? 1
    then month_day (year d) (month d)
           (days_in_month (fst (prev_month (year d) (month d)))
                          (snd (prev_month (year d) (month d))) + 1)
    else month_day (fst (next_month (year d) (month d)))
                   (snd (next_month (year d) (month d))) (day d).
Proof.
  intros Hv Htz.
  apply valid_date_spec in Hv. destruct Hv as [Hm Hd].
  destruct d as [y m dd]; cbn [year month day] in *.
  unfold next_month_date, setMonth, getMonth, parse, toISODate.
  cbv zeta. cbn [year month day].
  set (D := days_from_civil y m dd).
  assert (HDay : Day (LocalTime tz (D * msPerDay)) = D - 1).
  { unfold Day, LocalTime, msPerDay, msPerMinute.
    symmetry. apply (Z.div_unique _ _ _ (86400000 + tz * 60000)); lia. }
  assert (HT : TimeWithinDay (LocalTime tz (D * msPerDay))
               = msPerDay + tz * msPerMinute).
  { unfold TimeWithinDay, LocalTime, msPerDay, msPerMinute.
    symmetry. apply (Z.mod_unique _ _ (D - 1)); lia. }
  rewrite HDay, HT. unfold UTC.
  set (p := civil_from_days (D - 1)).
  replace (MakeDay (year p) (month p - 1 + 1) (day p) * msPerDay
           + (msPerDay + tz * msPerMinute) - tz * msPerMinute)
    with ((MakeDay (year p) (month p - 1 + 1) (day p) + 1) * msPerDay)
    by lia.
  rewrite Day_midnight.
  replace (month p - 1 + 1) with (month p) by lia.
  assert (Hb := days_in_month_bounds y m).
  destruct (Z.eqb_spec dd 1) as [->|Hne].
  - (* the day before is the last of the previous month *)
    set (py := fst (prev_month y m)). set (pm := snd (prev_month y m)).
    assert (Hpm := prev_month_range y m Hm). fold pm in Hpm.
    assert (Hnp := next_prev_month y m Hm). fold py pm in Hnp.
    assert (Hp : p = mkDate py pm (days_in_month py pm)).
    { unfold p, D.
      assert (Hs := days_from_civil_next_month py pm Hpm).
      rewrite Hnp in Hs. cbn [fst snd] in Hs. rewrite <- Hs.
      rewrite days_from_civil_add.
      replace (days_from_civil py pm (days_in_month py pm) + 1 - 1)
        with (days_from_civil py pm (days_in_month py pm)) by lia.
      apply (civil_roundtrip (mkDate py pm (days_in_month py pm))).
      apply valid_date_spec; simpl.
      assert (Hb' := days_in_month_bounds py pm). lia. }
    rewrite Hp. cbn [year month day].
    rewrite MakeDay_next by exact Hpm. rewrite Hnp. cbn [fst snd].
    rewrite <- days_from_civil_add.
    assert (Hb' := days_in_month_bounds py pm).
    apply civil_of_month_day; lia.
  - assert (Hp : p = mkDate y m (dd - 1)).
    { unfold p, D.
      replace (days_from_civil y m dd - 1)
        with (days_from_civil y m (dd + -1))
        by (rewrite days_from_civil_add; lia).
      apply (civil_roundtrip (mkDate y m (dd + -1))).
      apply valid_date_spec; simpl. lia. }
    rewrite Hp. cbn [year month day].
    rewrite MakeDay_next by exact Hm.
    rewrite <- days_from_civil_add.
    replace (dd - 1 + 1) with dd by lia.
    apply civil_of_month_day; [now apply next_month_range|lia].
Qed.

End NextMonthWest.

Lemma month_day_le_28 (y m k : Z) :
  k <= 28 -> month_day y m k = mkDate y m k.
Proof.
  intros H. unfold month_day. cbv zeta.
  assert (Hb := days_in_month_bounds y m).
  destruct (Z.leb_spec k (days_in_month y m)); [reflexivity|lia].
Qed.

Lemma next_month_keeps_order (tz : Z) (r d : Date) :
  valid_date r = true -> valid_date d = true ->
  day r <= 28 -> day d <= 28 ->
  0 <= tz < 1440 ->
  date_leb r d = true ->
  date_leb (next_month_date tz r) (next_month_date tz d) = true.
Proof.
  intros Hr Hd Hr28 Hd28 Htz Hle.
  rewrite !next_month_date_month_day by assumption.
  rewrite !month_day_le_28 by assumption.
  apply valid_date_spec in Hr. apply valid_date_spec in Hd.
  revert Hle. unfold date_leb, next_month. cbn [year month day].
  destruct (Z.eqb_spec (month r) 12), (Z.eqb_spec (month d) 12);
    cbn [fst snd];
    repeat match goal with
           | |- context [?a <? ?b] => destruct (Z.ltb_spec a b)
           end;
    rewrite ?Z.leb_le; intros; try reflexivity; try discriminate; lia.
Qed.

(** ** The recurrence generator *)

(** The scenario of the specification: a month with the same day. *)
Lemma next_month_same_day :
  next_month_date 0 (mkDate 2024 3 15) = mkDate 2024 4 15 /\
  next_month_date 0 (mkDate 2024 3 10) = mkDate 2024 4 10 /\
  next_month_date 0 (mkDate 2024 12 31) = mkDate 2025 1 31.
Proof. repeat split; reflexivity. Qed.

(** All dates from 1970 to 2099, in a process on UTC, pass
    [next_month_check]. *)
Lemma next_month_date_1970_2099 :
  forallb next_month_check (dates_of_years 1970 130) = true.
Proof.
  apply forallb_forall. intros d Hd.
  apply next_month_check_valid. eapply dates_of_years_valid, Hd.
Qed.

(** C2 (the code departs from it).  In a process on UTC the generator
    takes 2024-01-31 to 2024-03-02 and 2023-01-31 to 2023-03-03, not to
    the last day of February; a sweep that notifies a recurring expense
    due on 2024-01-31 inserts a successor due on 2024-03-02. *)
Theorem next_month_overflows_short_month :
  next_month_date 0 (mkDate 2024 1 31) = mkDate 2024 3 2 /\
  next_month_date 0 (mkDate 2023 1 31) = mkDate 2023 3 3 /\
  map due_date
      (expenses (fst (processReminders 0 None Sample.delivers
                                       Sample.gym_only (mkDate 2024 1 25))))
  = [mkDate 2024 1 31; mkDate 2024 3 2].
Proof. repeat split; reflexivity. Qed.

(** ** The expense routes *)

Section RouteFacts.
Import Routes.

Lemma no_updates_with_reminder (b : Body) (d : Date) :
  b_reminder_date b = Some d -> no_updates b = false.
Proof.
  intros H. unfold no_updates. rewrite H.
  destruct (b_expense_name b), (b_amount b), (b_category b),
    (b_due_date b); reflexivity.
Qed.

Lemma owned_spec (i user : Z) (e : Expense) :
  owned i user e = true <-> id e = i /\ user_id e = user.
Proof.
  unfold owned. rewrite andb_true_iff, !Z.eqb_eq. tauto.
Qed.

Lemma put_expense_accepted (s : Store) (user i : Z) (b : Body)
      (e : Expense) :
  validate_put b = true ->
  no_updates b = false ->
  find (owned i user) (expenses s) = Some e ->
  put_expense s user i b
  = (with_expenses s
       (map (fun e0 => if owned i user e0 then apply_updates b e0 else e0)
            (expenses s)),
     mkResponse 200 true "Expense updated successfully"
       (find (owned i user)
          (map (fun e0 => if owned i user e0 then apply_updates b e0 else e0)
               (expenses s)))).
Proof.
  intros Hv Hn Hf. unfold put_expense. rewrite Hv, Hf, Hn. reflexivity.
Qed.

(** C6.  An update accepted for an expense of the requesting user that
    carries a [reminder_date] answers 200 and leaves the expense with
    that reminder date and [email_sent] at 0, whatever the flag was; the
    expense is then in the due set of every day not before the new
    reminder date. *)
Theorem reminder_change_resets_flag
        (s : Store) (user i : Z) (b : Body) (d : Date) (e : Expense) :
  validate_put b = true ->
  b_reminder_date b = Some d ->
  find (owned i user) (expenses s) = Some e ->
  let res := put_expense s user i b in
  status (snd res) = 200 /\
  users (fst res) = users s /\
  (exists e', In e' (expenses (fst res)) /\ id e' = i /\ user_id e' = user) /\
  (forall e', In e' (expenses (fst res)) -> id e' = i -> user_id e' = user ->
              email_sent e' = 0 /\ reminder_date e' = d) /\
  (forall today u, In u (users s) -> u_id u = user ->
                   date_leb d today = true ->
                   In i (map r_id (pendingReminders (fst res) today))).
Proof.
  intros Hv Hd Hf res.
  assert (Hres := put_expense_accepted s user i b e Hv
                    (no_updates_with_reminder b d Hd) Hf).
  fold res in Hres. rewrite Hres. cbn [fst snd status users with_expenses
                                       expenses].
  apply find_some in Hf. destruct Hf as [He Hown].
  assert (Hown' := proj1 (owned_spec _ _ _) Hown).
  destruct Hown' as [Hid Huser].
  assert (Hin : In (apply_updates b e)
                   (map (fun e0 => if owned i user e0
                                   then apply_updates b e0 else e0)
                        (expenses s))).
  { apply in_map_iff. exists e. rewrite Hown. auto. }
  assert (Hnew : email_sent (apply_updates b e) = 0 /\
                 reminder_date (apply_updates b e) = d).
  { unfold apply_updates; simpl. rewrite Hd. auto. }
  split; [reflexivity|]. split; [reflexivity|]. split; [|split].
  - exists (apply_updates b e). auto.
  - intros e' He' Hid' Hu'. apply in_map_iff in He'.
    destruct He' as [e0 [He0 Hin0]].
    destruct (owned i user e0) eqn:E.
    + subst e'. unfold apply_updates; simpl. rewrite Hd. auto.
    + subst e'. exfalso.
      assert (owned i user e0 = true) by (apply owned_spec; auto).
      congruence.
  - intros today u Hu Huid Hle.
    apply in_map_iff. exists (reminder_row (apply_updates b e) u).
    split; [exact Hid|].
    apply In_pendingReminders, In_due_rows.
    exists (apply_updates b e), u. cbn [expenses users].
    destruct Hnew as [Hflag Hrem].
    repeat split; auto.
    + simpl. congruence.
    + unfold is_due. rewrite Hrem, Hle, Hflag. reflexivity.
Qed.

Lemma reminder_change_resets_flag_witness :
  let res := put_expense Sample.rent_notified 1 1 Sample.remind_on_12th in
  status (snd res) = 200 /\
  users (fst res) = users Sample.rent_notified /\
  (exists e', In e' (expenses (fst res)) /\ id e' = 1 /\ user_id e' = 1) /\
  (forall e', In e' (expenses (fst res)) -> id e' = 1 -> user_id e' = 1 ->
              email_sent e' = 0 /\ reminder_date e' = mkDate 2024 3 12) /\
  (forall today u, In u (users Sample.rent_notified) -> u_id u = 1 ->
                   date_leb (mkDate 2024 3 12) today = true ->
                   In 1 (map r_id (pendingReminders (fst res) today))).
Proof.
  apply (reminder_change_resets_flag
           Sample.rent_notified 1 1 Sample.remind_on_12th
           (mkDate 2024 3 12) (set_email_sent 1 Sample.rent));
    reflexivity.
Defined.


(** A row the create route inserts has its reminder not after its due
    date, as [Date] objects compare. *)
Lemma post_expense_created_in_order
      (paid_default : option Z) (s s' : Store) (user : Z) (b : Body)
      (resp : Response) (e : Expense) :
  post_expense paid_default s user b = (s', resp) ->
  data resp = Some e ->
  JSDate.parse (reminder_date e) <= JSDate.parse (due_date e) /\
  expenses s' = expenses s ++ [e] /\ email_sent e = 0.
Proof.
  unfold post_expense.
  destruct (negb (validate_post b)); [intros H; injection H as <- <-;
                                      discriminate|].
  destruct (b_expense_name b) as [n|]; [|intros H; injection H as <- <-;
                                         discriminate].
  destruct (b_amount b) as [a|]; [|intros H; injection H as <- <-;
                                   discriminate].
  destruct (b_due_date b) as [due|]; [|intros H; injection H as <- <-;
                                       discriminate].
  destruct (b_reminder_date b) as [rem|]; [|intros H; injection H as <- <-;
                                            discriminate].
  destruct (JSDate.parse rem >? JSDate.parse due) eqn:E;
    intros H; injection H as <- <-; simpl; [discriminate|].
  intros H; injection H as <-. simpl.
  rewrite Z.gtb_ltb in E. apply Z.ltb_ge in E. auto.
Qed.

(** C7 (the code departs from it).  The update route has no such check:
    a body that moves the reminder of an expense due on 2024-03-15 to
    2024-03-20 passes validation, is answered 200 and leaves the row
    with its reminder after its due date, while the create route
    answers 400 to the same pair of dates and inserts nothing. *)
Theorem update_accepts_reminder_after_due :
  let res := put_expense Sample.rent_only 1 1 Sample.remind_on_20th in
  validate_put Sample.remind_on_20th = true /\
  status (snd res) = 200 /\
  map (fun e => (id e, due_date e, reminder_date e)) (expenses (fst res))
  = [(1, mkDate 2024 3 15, mkDate 2024 3 20)] /\
  (forall e, In e (expenses (fst res)) ->
             date_ltb (due_date e) (reminder_date e) = true) /\
  validate_post Sample.rent_reminded_late = true /\
  post_expense None Sample.rent_only 1 Sample.rent_reminded_late
  = (Sample.rent_only,
     mkResponse 400 false "Reminder date cannot be after due date" None).
Proof.
  repeat split; try reflexivity.
  intros e [<-|[]]. reflexivity.
Qed.

End RouteFacts.

(** ** The diagnostic query *)

Lemma In_pending_rows (s : Store) (today : Date) (p : PendingRow) :
  In p (pending_rows s today) <->
  exists e u, In e (expenses s) /\ In u (users s) /\
              user_id e = u_id u /\ is_pending today e = true /\
              p = pending_row e u.
Proof.
  unfold pending_rows. rewrite in_flat_map. split.
  - intros [e [He Hp]].
    destruct (is_pending today e) eqn:Hd; [|contradiction].
    apply in_map_iff in Hp. destruct Hp as [u [<- Hu]].
    unfold owners in Hu. apply filter_In in Hu. destruct Hu as [Hu Huid].
    apply Z.eqb_eq in Huid. exists e, u. auto.
  - intros [e [u [He [Hu [Huid [Hd ->]]]]]].
    exists e. split; [exact He|]. rewrite Hd.
    apply in_map. unfold owners. apply filter_In.
    split; [exact Hu|now apply Z.eqb_eq].
Qed.

Lemma is_pending_spec (today : Date) (e : Expense) :
  is_pending today e = true <-> is_due today e = true /\ not_paid e = true.
Proof. unfold is_pending, is_due. now rewrite andb_true_iff. Qed.

Lemma not_paid_spec (e : Expense) :
  not_paid e = true <-> paid e = None \/ paid e = Some 0.
Proof.
  unfold not_paid. destruct (paid e) as [p|].
  - rewrite Z.eqb_eq. split.
    + intros ->. now right.
    + intros [H|H]; [discriminate|now injection H].
  - split; auto.
Qed.

(** C9, as stated, fails.  With a paid expense whose reminder is due,
    the sweep's due set holds the expense and the diagnostic query does
    not; with two unpaid expenses, one due earlier and reminded of
    later than the other, the two queries list them in opposite
    orders. *)
Lemma pending_query_differs_from_due_set :
  (In 3 (map r_id (pendingReminders Sample.rent_and_books
                                    (mkDate 2024 3 11))) /\
   ~ In 3 (map p_id (pending_reminders_query Sample.rent_and_books
                                             (mkDate 2024 3 11)))) /\
  (map r_id (pendingReminders Sample.rent_and_water (mkDate 2024 3 11))
   = [4; 1] /\
   map p_id (pending_reminders_query Sample.rent_and_water
                                     (mkDate 2024 3 11))
   = [1; 4]) /\
  map p_id (pending_reminders_query Sample.rent_and_books
                                    (mkDate 2024 3 11))
  <> map r_id (pendingReminders Sample.rent_and_books (mkDate 2024 3 11)).
Proof.
  split; [split|split; [split; reflexivity|]].
  - simpl. auto.
  - simpl. intros [H|[]]. discriminate.
  - intros H. vm_compute in H. discriminate.
Qed.

(** C9, amended.  The diagnostic query holds a row for an expense and
    its owner exactly when the expense is due on that day (reminder date
    not after it, flag 0) and is not paid ([paid] is 0 or NULL); each of
    its rows is for an expense of the sweep's due set of that day; and
    its rows are in ascending order of reminder date. *)
Theorem pending_query_is_unpaid_due_set (s : Store) (today : Date) :
  (forall p, In p (pending_reminders_query s today) <->
             exists e u, In e (expenses s) /\ In u (users s) /\
                         user_id e = u_id u /\
                         date_leb (reminder_date e) today = true /\
                         email_sent e = 0 /\
                         (paid e = None \/ paid e = Some 0) /\
                         p = pending_row e u) /\
  (forall p, In p (pending_reminders_query s today) ->
             In (p_id p) (map r_id (pendingReminders s today))) /\
  StronglySorted
    (fun a b => date_leb (p_reminder_date a) (p_reminder_date b) = true)
    (pending_reminders_query s today).
Proof.
  assert (Hmem : forall p, In p (pending_reminders_query s today) <->
                           In p (pending_rows s today)).
  { intros p. apply order_by_In. }
  split; [|split].
  - intros p. rewrite Hmem, In_pending_rows.
    split; intros [e [u [He [Hu [Huid H]]]]]; exists e, u;
      (split; [exact He|]); (split; [exact Hu|]); (split; [exact Huid|]).
    + destruct H as [Hp ->]. apply is_pending_spec in Hp.
      destruct Hp as [Hdue Hnp]. unfold is_due in Hdue.
      apply andb_true_iff in Hdue. destruct Hdue as [Hd Hf].
      apply Z.eqb_eq in Hf. apply not_paid_spec in Hnp. auto.
    + destruct H as [Hd [Hf [Hnp ->]]]. split; [|reflexivity].
      apply is_pending_spec. split; [|now apply not_paid_spec].
      unfold is_due. rewrite Hd, Hf. reflexivity.
  - intros p Hp. apply Hmem, In_pending_rows in Hp.
    destruct Hp as [e [u [He [Hu [Huid [Hp ->]]]]]].
    apply is_pending_spec in Hp. destruct Hp as [Hdue _].
    change (p_id (pending_row e u)) with (r_id (reminder_row e u)).
    apply in_map, In_pendingReminders, In_due_rows.
    exists e, u. auto.
  - apply (order_by_sorted p_reminder_date).
Qed.

Lemma pending_query_is_unpaid_due_set_witness :
  In (p_id (pending_row Sample.rent Sample.asha))
     (map r_id (pendingReminders Sample.rent_and_books (mkDate 2024 3 11))).
Proof.
  apply (pending_query_is_unpaid_due_set Sample.rent_and_books
                                         (mkDate 2024 3 11)).
  simpl. auto.
Defined.

(** ** The email service *)

(** C10, as stated, fails.  When the provider call rejects with [null]
    or [undefined], the catch clause reads [error.message] of it, which
    throws, and the call of [sendReminderEmail] rejects instead of
    returning a result; a call without an argument object rejects
    too. *)
Lemma sendReminderEmail_can_throw :
  EmailService.sendReminderEmail
    (EmailService.mkEnv None None)
    (Some (fun _ => EmailService.Rejected EmailService.Nullish))
    (Some (email_args (reminder_row Sample.rent Sample.asha)))
  = Thrown "Cannot read properties of null (reading 'message')" /\
  (forall result,
      EmailService.sendReminderEmail
        (EmailService.mkEnv None None)
        (Some (fun _ => EmailService.Rejected EmailService.Nullish))
        (Some (email_args (reminder_row Sample.rent Sample.asha)))
      <> Returned result) /\
  (forall result,
      EmailService.sendReminderEmail (EmailService.mkEnv None None) None None
      <> Returned result).
Proof.
  split; [reflexivity|]. split; intros result H; discriminate H.
Qed.

(** C10, amended.  Called with an argument object, [sendReminderEmail]
    returns a result and does not throw unless the provider call rejects
    with [null] or [undefined]: without a client the result is the
    failure ['Email service not configured']; when the provider reports
    an error, or throws an object, a failure carrying its message; when
    the provider resolves with nothing, or with neither data nor error,
    a failure; and a success, carrying the provider's id, only when the
    provider resolves with data and no error. *)
Theorem sendReminderEmail_returns_unless_nullish
        (env : EmailService.Env) (resend : option EmailService.Client)
        (args : EmailArgs) :
  (forall client, resend = Some client ->
     client (EmailService.build_message env args)
     <> EmailService.Rejected EmailService.Nullish) ->
  exists result,
    EmailService.sendReminderEmail env resend (Some args) = Returned result /\
    match resend with
    | None =>
        result = mkSendResult false None
                              (Some "Email service not configured"%string)
    | Some client =>
        match client (EmailService.build_message env args) with
        | EmailService.Resolved (Some i) None =>
            result = mkSendResult true i None
        | EmailService.Resolved _ (Some m) =>
            result = mkSendResult false None m
        | EmailService.Resolved None None =>
            success result = false /\ messageId result = None
        | EmailService.ResolvedNothing =>
            success result = false /\ messageId result = None
        | EmailService.Rejected (EmailService.ErrorObject m) =>
            result = mkSendResult false None m
        | EmailService.Rejected EmailService.Nullish => False
        end
    end.
Proof.
  intros Hnn. unfold EmailService.sendReminderEmail.
  destruct resend as [client|].
  - specialize (Hnn client eq_refl).
    destruct (client (EmailService.build_message env args))
      as [|[i|] [m|]|[|m]]; simpl; try (exfalso; now apply Hnn);
      eexists; split; try reflexivity; auto.
  - eexists. split; reflexivity.
Qed.

Lemma sendReminderEmail_returns_unless_nullish_witness :
  exists result,
    EmailService.sendReminderEmail
      (EmailService.mkEnv None None)
      (Some (fun _ => EmailService.Rejected
                        (EmailService.ErrorObject (Some "timeout"%string))))
      (Some (email_args (reminder_row Sample.rent Sample.asha)))
    = Returned result /\
    result = mkSendResult false None (Some "timeout"%string).
Proof.
  apply (sendReminderEmail_returns_unless_nullish
           (EmailService.mkEnv None None)
           (Some (fun _ => EmailService.Rejected
                             (EmailService.ErrorObject
                                (Some "timeout"%string))))
           (email_args (reminder_row Sample.rent Sample.asha))).
  intros client H. injection H as <-. discriminate.
Defined.

(** * Further properties of the code *)

(** ** The month step of the recurrence generator *)

(** X1.  In a process whose time zone keeps one fixed offset from UTC
    (no daylight saving), from 0 to under 24 hours east, the date the
    generator computes for a calendar date is the same day of the
    following month when that month has such a day, and otherwise lies
    in the month after it, as many days in as the day exceeds the
    following month. *)
Theorem month_step_utc_and_east (tz : Z) (d : Date) :
  valid_date d = true ->
  0 <= tz < 1440 ->
  let y1 := fst (next_month (year d) (month d)) in
  let m1 := snd (next_month (year d) (month d)) in
  next_month_date tz d
  = if day d <=? days_in_month y1 m1 then mkDate y1 m1 (day d)
    else mkDate (fst (next_month y1 m1)) (snd (next_month y1 m1))
                (day d - days_in_month y1 m1).
Proof.
  intros Hv Htz. cbv zeta.
  rewrite (next_month_date_month_day tz d Hv Htz). reflexivity.
Qed.

Lemma month_step_utc_and_east_witness :
  next_month_date 330 (mkDate 2023 12 31) = mkDate 2024 1 31 /\
  next_month_date 330 (mkDate 2024 8 31) = mkDate 2024 10 1.
Proof.
  split.
  - apply (month_step_utc_and_east 330 (mkDate 2023 12 31));
      [reflexivity|lia].
  - apply (month_step_utc_and_east 330 (mkDate 2024 8 31));
      [reflexivity|lia].
Defined.

(** X2.  In a process whose time zone keeps one fixed offset from UTC
    (no daylight saving), up to 24 hours west, the generator reads the
    local day before: for a date after the first of its month the result
    is the one of a UTC process, and for the first of a month it is the
    day of the same month that follows the length of the previous month
    (the 30th of March 2024 for the first of March 2024), running over
    into the next month when the month is too short. *)
Theorem month_step_west (tz : Z) (d : Date) :
  valid_date d = true ->
  -1440 <= tz < 0 ->
  (day d <> 1 -> next_month_date tz d = next_month_date 0 d) /\
  (day d = 1 ->
   let n := days_in_month (fst (prev_month (year d) (month d)))
                          (snd (prev_month (year d) (month d))) in
   next_month_date tz d
   = if n + 1 <=? days_in_month (year d) (month d)
     then mkDate (year d) (month d) (n + 1)
     else mkDate (fst (next_month (year d) (month d)))
                 (snd (next_month (year d) (month d)))
                 (n + 1 - days_in_month (year d) (month d))).
Proof.
  intros Hv Htz.
  rewrite (next_month_date_west_month_day tz d Hv Htz).
  split; intros Hday.
  - destruct (Z.eqb_spec (day d) 1); [contradiction|].
    rewrite (next_month_date_month_day 0 d Hv) by lia. reflexivity.
  - rewrite Hday. reflexivity.
Qed.

Lemma month_step_west_witness :
  next_month_date (-300) (mkDate 2024 3 1) = mkDate 2024 3 30 /\
  next_month_date (-300) (mkDate 2024 3 15) = mkDate 2024 4 15.
Proof.
  split.
  - apply (month_step_west (-300) (mkDate 2024 3 1));
      [reflexivity|lia|reflexivity].
  - refine (eq_trans
              (proj1 (month_step_west (-300) (mkDate 2024 3 15) _ _) _) _).
    + reflexivity.
    + lia.
    + discriminate.
    + reflexivity.
Defined.

(** X3.  In a process on UTC or east of it, the successor the generator
    inserts for a reminder whose due and reminder dates are calendar
    dates with days up to the 28th, the reminder not after the due
    date, is appended to the table and has its reminder date not after
    its due date. *)
Theorem successor_keeps_reminder_before_due
        (tz : Z) (paid_default : option Z) (s : Store) (r : Reminder)
        (o : Expense) :
  0 <= tz < 1440 ->
  get_by_id s (r_id r) = Some o ->
  valid_date (r_due_date r) = true ->
  valid_date (r_reminder_date r) = true ->
  day (r_due_date r) <= 28 ->
  day (r_reminder_date r) <= 28 ->
  date_leb (r_reminder_date r) (r_due_date r) = true ->
  exists x,
    expenses (createNextRecurringExpense tz paid_default s r)
    = expenses s ++ [x] /\
    date_leb (reminder_date x) (due_date x) = true.
Proof.
  intros Htz Hget Hvd Hvr Hd Hr Hle.
  destruct (create_next_found tz paid_default s r o Hget)
    as [x [Hx [_ Hsucc]]].
  exists x. rewrite Hx. split; [reflexivity|].
  destruct Hsucc as [_ [_ [_ [_ [_ [Hdue [Hrem _]]]]]]].
  rewrite Hdue, Hrem. now apply next_month_keeps_order.
Qed.

Lemma successor_keeps_reminder_before_due_witness :
  exists x,
    expenses (createNextRecurringExpense
                0 None Sample.rent_only
                (reminder_row Sample.rent Sample.asha))
    = expenses Sample.rent_only ++ [x] /\
    date_leb (reminder_date x) (due_date x) = true.
Proof.
  apply (successor_keeps_reminder_before_due
           0 None Sample.rent_only (reminder_row Sample.rent Sample.asha)
           Sample.rent); try reflexivity; simpl; lia.
Defined.

(** ** The month of the monthly summary *)

(** X4.  For a month from 1 to 12, the last day of the range the
    summary handler queries is the last day of the month in a process on
    UTC or west of it, and the day before the last in a process east of
    UTC: there the expenses due on the last day of the month are outside
    the range. *)
Theorem month_bounds_last_day (tz year month : Z) :
  1 <= month <= 12 ->
  -1440 < tz <= 1440 ->
  let yr := if (0 <=? year) && (year <=? 99) then 1900 + year else year in
  Routes.month_bounds tz year month
  = (mkDate year month 1,
     mkDate yr month (if 0 <? tz then days_in_month yr month - 1
                      else days_in_month yr month)).
Proof.
  intros Hm Htz yr. unfold Routes.month_bounds. fold yr. f_equal.
  assert (Hb := days_in_month_bounds yr month).
  rewrite MakeDay_next by exact Hm.
  set (L := days_from_civil yr month (days_in_month yr month)).
  assert (HL : days_from_civil (fst (next_month yr month))
                               (snd (next_month yr month)) 0 = L).
  { assert (H1 := days_from_civil_add (fst (next_month yr month))
                                      (snd (next_month yr month)) 1 (-1)).
    change (1 + -1) with 0 in H1. rewrite H1.
    rewrite <- days_from_civil_next_month by exact Hm.
    rewrite days_from_civil_add. unfold L. lia. }
  rewrite HL. unfold JSDate.toISODate, JSDate.UTC.
  destruct (Z.ltb_spec 0 tz) as [Hpos|Hneg].
  - assert (HD : JSDate.Day (L * JSDate.msPerDay - tz * JSDate.msPerMinute)
                 = L - 1).
    { unfold JSDate.Day, JSDate.msPerDay, JSDate.msPerMinute.
      symmetry. apply (Z.div_unique _ _ _ (86400000 - tz * 60000)); lia. }
    rewrite HD. unfold L.
    replace (days_from_civil yr month (days_in_month yr month) - 1)
      with (days_from_civil yr month (days_in_month yr month + -1))
      by (rewrite days_from_civil_add; lia).
    replace (days_in_month yr month - 1)
      with (days_in_month yr month + -1) by lia.
    apply (civil_roundtrip (mkDate yr month (days_in_month yr month + -1))).
    apply valid_date_spec; simpl. lia.
  - assert (HD : JSDate.Day (L * JSDate.msPerDay - tz * JSDate.msPerMinute)
                 = L).
    { unfold JSDate.Day, JSDate.msPerDay, JSDate.msPerMinute.
      symmetry. apply (Z.div_unique _ _ _ (- tz * 60000)); lia. }
    rewrite HD. unfold L.
    apply (civil_roundtrip (mkDate yr month (days_in_month yr month))).
    apply valid_date_spec; simpl. lia.
Qed.

Lemma month_bounds_last_day_witness :
  Routes.month_bounds 0 2024 2 = (mkDate 2024 2 1, mkDate 2024 2 29) /\
  Routes.month_bounds 330 2024 3 = (mkDate 2024 3 1, mkDate 2024 3 30).
Proof.
  split.
  - apply (month_bounds_last_day 0 2024 2); lia.
  - apply (month_bounds_last_day 330 2024 3); lia.
Defined.

(** ** What a sweep keeps *)

Lemma max_id_nonneg (l : list Expense) : 0 <= max_id l.
Proof. induction l; simpl; lia. Qed.

Section SweepInvariants.
Variable tz : Z.
Variable paid_default : option Z.
Variable notify : Notifier.

Lemma after_call_seq_ok (s : Store) (r : Reminder) (ok : bool) :
  seq_ok s -> seq_ok (after_call tz paid_default s r ok).
Proof.
  unfold seq_ok, after_call. intros H. destruct ok; [|exact H].
  assert (H1 : max_id (expenses (run_mark_sent s (r_id r)))
               <= last_id (run_mark_sent s (r_id r))).
  { simpl. rewrite (max_id_map_id _ (expenses s)); [exact H|].
    apply map_id_mark_sent. }
  destruct (is_recurring r); [|exact H1].
  unfold createNextRecurringExpense.
  destruct (get_by_id (run_mark_sent s (r_id r)) (r_id r)); [|exact H1].
  cbn [expenses last_id]. rewrite max_id_app.
  set (m := max_id (expenses (run_mark_sent s (r_id r)))) in *.
  unfold fresh_id. fold m. unfold max_id. cbn [fold_right id].
  fold m. assert (0 <= m) by apply max_id_nonneg. lia.
Qed.

Lemma fold_seq_ok (l : list Reminder) :
  forall (s : Store) (calls : list Reminder),
    seq_ok s ->
    seq_ok (fst (fold_left (process_reminder tz paid_default notify) l
                           (s, calls))).
Proof.
  induction l as [|r t IH]; intros s c H; cbn [fold_left].
  - exact H.
  - rewrite process_reminder_eq. apply IH. now apply after_call_seq_ok.
Qed.

(** X5.  A sweep keeps the store well formed: after it the ids of the
    expenses are still pairwise distinct, the users are the same, every
    expense (the successors included) has its owner among the users,
    and the AUTOINCREMENT counter is still not behind any id. *)
Theorem sweep_keeps_store_well_formed (s : Store) (today : Date) :
  wf_store s -> seq_ok s ->
  let s' := fst (processReminders tz paid_default notify s today) in
  wf_store s' /\ seq_ok s' /\ users s' = users s.
Proof.
  intros [Hnd [Hnu Hfk]] Hseq s'.
  destruct (sweep_result tz paid_default notify s today) as [_ Hshape].
  fold s' in Hshape.
  assert (Hu : users s' = users s) by (destruct Hshape as [Hu _]; exact Hu).
  split; [|split; [now apply fold_seq_ok|exact Hu]].
  split; [now apply sweep_wf|]. split; [now rewrite Hu|].
  intros e' He'. rewrite Hu.
  destruct (shape_row_cases _ _ _ _ _ _ _ Hshape He')
    as [[e [He ->]]|[r [_ [_ [[o [Ho Huo]] _]]]]].
  - destruct (Hfk e He) as [u [Hin Huid]]. exists u. split; [exact Hin|].
    unfold mark_all. now destruct (existsb _ _).
  - unfold get_by_id in Ho. apply find_some in Ho. destruct Ho as [Ho _].
    destruct (Hfk o Ho) as [u [Hin Huid]]. exists u. split; [exact Hin|].
    congruence.
Qed.

Lemma fold_none_sent (l : list Reminder) :
  forall (s : Store) (calls : list Reminder),
    (forall k r, succeeded notify k r = false) ->
    fold_left (process_reminder tz paid_default notify) l (s, calls)
    = (s, calls ++ l).
Proof.
  induction l as [|r t IH]; intros s c H; cbn [fold_left].
  - now rewrite app_nil_r.
  - rewrite process_reminder_eq, H. unfold after_call.
    rewrite IH by exact H. now rewrite <- app_assoc.
Qed.

(** X7.  A sweep deletes no row: the table has afterwards as many rows
    as before plus one for each recurring reminder whose call reported
    success. *)
Theorem sweep_row_count (s : Store) (today : Date) :
  List.length (expenses (fst (processReminders tz paid_default notify
                                               s today)))
  = (List.length (expenses s)
     + List.length (recurring_sent notify 0 (pendingReminders s today)))%nat.
Proof.
  destruct (sweep_result tz paid_default notify s today)
    as [_ [_ [_ [extra [Hex HF]]]]].
  rewrite Hex, length_app, length_map.
  now rewrite (Forall2_length HF).
Qed.

End SweepInvariants.

Lemma seq_ok_rent_only : seq_ok Sample.rent_only.
Proof. unfold seq_ok. simpl. lia. Qed.

Lemma sweep_keeps_store_well_formed_witness :
  let s' := fst (processReminders 0 None Sample.delivers Sample.rent_only
                                  (mkDate 2024 3 10)) in
  wf_store s' /\ seq_ok s' /\ users s' = users Sample.rent_only.
Proof.
  apply (sweep_keeps_store_well_formed
           0 None Sample.delivers Sample.rent_only (mkDate 2024 3 10)).
  - exact wf_rent_only.
  - exact seq_ok_rent_only.
Defined.

(** X6.  When no call of a sweep reports success (each returns a failure
    or throws), the store after the sweep is the store before it, and
    the notifier has been called once for each item of the due set. *)
Theorem sweep_without_success_changes_nothing
        (tz : Z) (paid_default : option Z) (notify : Notifier)
        (s : Store) (today : Date) :
  (forall k a result, notify k a = Returned result ->
                      success result = false) ->
  processReminders tz paid_default notify s today
  = (s, pendingReminders s today).
Proof.
  intros H. unfold processReminders.
  apply (fold_none_sent tz paid_default notify).
  intros k r. apply not_succeeded. intros result. apply H.
Qed.

(** The email service without a client is such a notifier. *)
Lemma sweep_without_success_changes_nothing_witness :
  processReminders 0 None
    (EmailService.notifier (EmailService.mkEnv None None) (fun _ => None))
    Sample.rent_and_gym (mkDate 2024 3 10)
  = (Sample.rent_and_gym,
     pendingReminders Sample.rent_and_gym (mkDate 2024 3 10)).
Proof.
  apply (sweep_without_success_changes_nothing
           0 None
           (EmailService.notifier (EmailService.mkEnv None None)
                                  (fun _ => None))
           Sample.rent_and_gym (mkDate 2024 3 10)).
  intros k a result H. injection H as <-. reflexivity.
Defined.

(** ** The other expense routes *)

Section RouteExtras.
Import Routes.

Lemma find_owned_map (f : Expense -> Expense) (i user : Z)
      (l : list Expense) :
  (forall e, owned i user (f e) = owned i user e) ->
  find (owned i user) (map (fun e => if owned i user e then f e else e) l)
  = option_map f (find (owned i user) l).
Proof.
  intros Hf. induction l as [|e t IH]; simpl; [reflexivity|].
  destruct (owned i user e) eqn:E.
  - now rewrite Hf, E.
  - now rewrite E.
Qed.

Lemma foreign_not_owned (s : Store) (i user : Z) (e : Expense) :
  NoDup (map id (expenses s)) ->
  In e (expenses s) -> id e = i -> user_id e <> user ->
  find (owned i user) (expenses s) = None.
Proof.
  intros Hnd He Hid Hu.
  destruct (find (owned i user) (expenses s)) as [x|] eqn:F; [|reflexivity].
  apply find_some in F. destruct F as [Hx Hown].
  apply owned_spec in Hown. destruct Hown as [Hxi Hxu].
  assert (x = e) by (eapply nodup_id_inj; eauto; congruence).
  subst x. contradiction.
Qed.

(** X8.  An expense that belongs to another user is out of reach: with
    unique ids, a GET, a PUT with a valid body, a DELETE and a PATCH of
    the paid flag for its id are all answered 404, and the store is left
    as it was. *)
Theorem foreign_expense_is_out_of_reach
        (s : Store) (user i : Z) (e : Expense) (b : Body) (now : string) :
  NoDup (map id (expenses s)) ->
  In e (expenses s) -> id e = i -> user_id e <> user ->
  validate_put b = true ->
  status (get_expense s user i) = 404 /\
  data (get_expense s user i) = None /\
  put_expense s user i b
  = (s, mkResponse 404 false "Expense not found" None) /\
  delete_expense s user i
  = (s, mkResponse 404 false "Expense not found" None) /\
  patch_paid s user i now
  = (s, mkResponse 404 false "Expense not found" None).
Proof.
  intros Hnd He Hid Hu Hv.
  assert (F := foreign_not_owned s i user e Hnd He Hid Hu).
  unfold get_expense, put_expense, delete_expense, patch_paid.
  rewrite F, Hv. repeat split.
Qed.

Lemma foreign_expense_is_out_of_reach_witness :
  put_expense Sample.rent_only 2 1 Sample.remind_on_12th
  = (Sample.rent_only, mkResponse 404 false "Expense not found" None) /\
  delete_expense Sample.rent_only 2 1
  = (Sample.rent_only, mkResponse 404 false "Expense not found" None).
Proof.
  refine ((fun H => conj (proj1 (proj2 (proj2 H)))
                         (proj1 (proj2 (proj2 (proj2 H)))))
            (foreign_expense_is_out_of_reach
               Sample.rent_only 2 1 Sample.rent Sample.remind_on_12th
               EmptyString _ _ _ _ _)).
  - repeat constructor; simpl; tauto.
  - simpl. auto.
  - reflexivity.
  - simpl. lia.
  - reflexivity.
Defined.

(** X9.  Whatever the request, an update changes no row but those with
    the given id and owner, never changes the id, the owner, [paid] or
    [paid_at] of a row, leaves the users and the id counter alone, and
    changes [email_sent] only when the body carries a reminder date. *)
Theorem put_expense_frame (s : Store) (user i : Z) (b : Body) :
  let s' := fst (put_expense s user i b) in
  users s' = users s /\ last_id s' = last_id s /\
  Forall2 (fun e e' =>
             id e' = id e /\ user_id e' = user_id e /\
             paid e' = paid e /\ paid_at e' = paid_at e /\
             (owned i user e = false -> e' = e) /\
             (b_reminder_date b = None -> email_sent e' = email_sent e))
          (expenses s) (expenses s').
Proof.
  assert (Hsame : Forall2 (fun e e' =>
             id e' = id e /\ user_id e' = user_id e /\
             paid e' = paid e /\ paid_at e' = paid_at e /\
             (owned i user e = false -> e' = e) /\
             (b_reminder_date b = None -> email_sent e' = email_sent e))
          (expenses s) (expenses s)).
  { rewrite <- (map_id (expenses s)) at 2.
    apply Forall2_map_r. intros e _. repeat split; auto. }
  unfold put_expense.
  destruct (negb (validate_put b)); [simpl; auto|].
  destruct (find (owned i user) (expenses s)) as [found|]; [|simpl; auto].
  destruct (no_updates b); [simpl; auto|].
  cbn [fst users last_id with_expenses expenses].
  split; [reflexivity|]. split; [reflexivity|].
  apply Forall2_map_r. intros e _.
  destruct (owned i user e) eqn:E.
  - unfold apply_updates; simpl. repeat split; try discriminate.
    intros ->. reflexivity.
  - repeat split; auto.
Qed.

(** X10.  Deleting an expense of the requesting user is answered 200
    and removes exactly the rows with that id and owner; the other rows,
    the users and the id counter stay, and a GET of the id is then
    answered 404. *)
Theorem delete_expense_removes_the_target
        (s : Store) (user i : Z) (e : Expense) :
  find (owned i user) (expenses s) = Some e ->
  let res := delete_expense s user i in
  status (snd res) = 200 /\
  users (fst res) = users s /\ last_id (fst res) = last_id s /\
  expenses (fst res)
  = filter (fun x => negb ((id x =? i) && (user_id x =? user))) (expenses s)
  /\
  (forall x, In x (expenses (fst res)) <->
             In x (expenses s) /\ ~ (id x = i /\ user_id x = user)) /\
  status (get_expense (fst res) user i) = 404.
Proof.
  intros F res. unfold res, delete_expense. rewrite F.
  cbn [fst snd status users last_id with_expenses expenses].
  assert (Hmem : forall x,
             In x (filter (fun e0 => negb (owned i user e0)) (expenses s)) <->
             In x (expenses s) /\ ~ (id x = i /\ user_id x = user)).
  { intros x. rewrite filter_In, negb_true_iff.
    split; intros [Hx Hn]; (split; [exact Hx|]).
    - intros Hc. apply owned_spec in Hc. congruence.
    - destruct (owned i user x) eqn:E; [|reflexivity].
      apply owned_spec in E. contradiction. }
  split; [reflexivity|]. split; [reflexivity|]. split; [reflexivity|].
  split; [reflexivity|]. split; [exact Hmem|].
  unfold get_expense. cbn [expenses with_expenses].
  destruct (find (owned i user)
                 (filter (fun e0 => negb (owned i user e0)) (expenses s)))
    as [x|] eqn:G; [|reflexivity].
  apply find_some in G. destruct G as [Hx Hown].
  apply Hmem in Hx. apply owned_spec in Hown. tauto.
Qed.

Lemma delete_expense_removes_the_target_witness :
  expenses (fst (delete_expense Sample.rent_and_gym 1 2)) = [Sample.rent] /\
  status (get_expense (fst (delete_expense Sample.rent_and_gym 1 2)) 1 2)
  = 404.
Proof.
  refine ((fun H => conj (proj1 (proj2 (proj2 (proj2 H))))
                         (proj2 (proj2 (proj2 (proj2 (proj2 H))))))
            (delete_expense_removes_the_target
               Sample.rent_and_gym 1 2 Sample.gym _)).
  reflexivity.
Defined.

(** X11.  With unique ids, an expense its owner has deleted gets no call
    of the notifier in any later sweep. *)
Theorem deleted_expense_is_never_notified
        (tz : Z) (paid_default : option Z) (notify : Notifier)
        (s : Store) (user i : Z) (e : Expense) (today : Date) :
  NoDup (map id (expenses s)) ->
  find (owned i user) (expenses s) = Some e ->
  ~ In i (map r_id (snd (processReminders tz paid_default notify
                           (fst (delete_expense s user i)) today))).
Proof.
  intros Hnd F Hin.
  destruct (sweep_result tz paid_default notify
                         (fst (delete_expense s user i)) today)
    as [Hcalls _].
  rewrite Hcalls in Hin. apply in_map_iff in Hin.
  destruct Hin as [r [Hid Hr]].
  apply pending_id_in_store in Hr. rewrite Hid in Hr.
  apply in_map_iff in Hr. destruct Hr as [x [Hxi Hx]].
  unfold delete_expense in Hx. rewrite F in Hx.
  cbn [fst with_expenses expenses] in Hx.
  apply filter_In in Hx. destruct Hx as [Hx Hn].
  apply find_some in F. destruct F as [He Hown].
  assert (Hown' := proj1 (owned_spec _ _ _) Hown).
  assert (x = e) by (eapply nodup_id_inj; eauto; lia).
  subst x. rewrite Hown in Hn. discriminate.
Qed.

Lemma deleted_expense_is_never_notified_witness :
  ~ In 2 (map r_id (snd (processReminders 0 None Sample.delivers
                           (fst (delete_expense Sample.rent_and_gym 1 2))
                           (mkDate 2024 3 10)))).
Proof.
  apply (deleted_expense_is_never_notified
           0 None Sample.delivers Sample.rent_and_gym 1 2 Sample.gym
           (mkDate 2024 3 10)).
  - repeat constructor; simpl; intuition discriminate.
  - reflexivity.
Defined.

End RouteExtras.

Section PaidFacts.
Import Routes.

Lemma owned_set_paid (i user : Z) (p : option Z) (t : option string)
      (e : Expense) :
  owned i user (set_paid p t e) = owned i user e.
Proof. reflexivity. Qed.

Lemma due_rows_paid_blind (s : Store) (today : Date)
      (f : Expense -> Expense) :
  (forall e, exists p t, f e = set_paid p t e \/ f e = e) ->
  due_rows (with_expenses s (map f (expenses s))) today = due_rows s today.
Proof.
  intros Hf. unfold due_rows. cbn [expenses with_expenses].
  change (fun e => if is_due today e
                   then map (reminder_row e)
                            (owners (with_expenses s (map f (expenses s))) e)
                   else [])
    with (fun e => if is_due today e
                   then map (reminder_row e) (owners s e) else []).
  generalize (expenses s) as l.
  induction l as [|e l IH]; simpl; [reflexivity|].
  rewrite IH. f_equal.
  destruct (Hf e) as [p [t [-> | ->]]]; reflexivity.
Qed.

(** X13.  Marking an expense paid or unpaid changes nothing for the
    sweep: the due set of any day is the same before and after the
    request, so a paid expense is still reminded of. *)
Theorem paid_toggle_keeps_due_set
        (s : Store) (user i : Z) (now : string) (today : Date) :
  pendingReminders (fst (patch_paid s user i now)) today
  = pendingReminders s today.
Proof.
  unfold pendingReminders, patch_paid.
  destruct (find (owned i user) (expenses s)) as [e|]; [|reflexivity].
  cbn [fst]. f_equal.
  apply due_rows_paid_blind. intros x.
  destruct (owned i user x).
  - do 2 eexists. left. reflexivity.
  - exists None, None. now right.
Qed.

Lemma patch_paid_rows
        (s : Store) (user i : Z) (now now2 : string) (e : Expense) :
  find (owned i user) (expenses s) = Some e ->
  let v := toggled (paid e) in
  let res := patch_paid s user i now in
  let res2 := patch_paid (fst res) user i now2 in
  status (snd res) = 200 /\
  expenses (fst res)
  = map (fun x => if owned i user x
                  then set_paid (Some v) (if v =? 1 then Some now else None) x
                  else x)
        (expenses s) /\
  data (snd res)
  = Some (set_paid (Some v) (if v =? 1 then Some now else None) e) /\
  expenses (fst res2)
  = map (fun x => if owned i user x
                  then set_paid (Some (1 - v))
                                (if v =? 1 then None else Some now2) x
                  else x)
        (expenses s).
Proof.
  intros F v res res2.
  assert (Hres : res
    = (with_expenses s
         (map (fun x => if owned i user x
                        then set_paid (Some v)
                                      (if v =? 1 then Some now else None) x
                        else x) (expenses s)),
       mkResponse 200 true
         (if v =? 1 then "Expense marked as paid"
          else "Expense marked as unpaid")
         (Some (set_paid (Some v) (if v =? 1 then Some now else None) e)))).
  { unfold res, patch_paid. rewrite F. fold v. cbv zeta.
    rewrite find_owned_map by (intros; apply owned_set_paid).
    rewrite F. reflexivity. }
  rewrite Hres. cbn [fst snd status data expenses with_expenses].
  split; [reflexivity|]. split; [reflexivity|]. split; [reflexivity|].
  unfold res2. rewrite Hres. cbn [fst]. unfold patch_paid.
  cbn [expenses with_expenses].
  rewrite find_owned_map by (intros; apply owned_set_paid).
  rewrite F. cbn [option_map fst expenses with_expenses].
  rewrite map_map. apply map_ext. intros x.
  assert (Hv : toggled (paid (set_paid (Some v)
                 (if v =? 1 then Some now else None) e)) = 1 - v).
  { unfold v, toggled; simpl. destruct (paid e) as [p|]; [|reflexivity].
    destruct (p =? 1); reflexivity. }
  rewrite Hv.
  assert (Hat : (if 1 - v =? 1 then Some now2 else None)
                = (if v =? 1 then None else Some now2)).
  { unfold v, toggled. destruct (paid e) as [p|]; [|reflexivity].
    destruct (p =? 1); reflexivity. }
  rewrite Hat.
  destruct (owned i user x) eqn:E.
  - rewrite owned_set_paid, E. reflexivity.
  - rewrite E. reflexivity.
Qed.

Lemma toggled_paid (p : option Z) : p = Some 1 -> toggled p = 0.
Proof. intros ->. reflexivity. Qed.

Lemma toggled_not_paid (p : option Z) : p <> Some 1 -> toggled p = 1.
Proof.
  intros H. unfold toggled. destruct p as [v|]; [|reflexivity].
  destruct (Z.eqb_spec v 1) as [->|]; [contradiction|reflexivity].
Qed.

(** X12.  A PATCH of the paid flag for an expense of the requesting
    user is answered 200; in the rows with that id and owner it sets
    [paid] to 0 and [paid_at] to NULL if the expense was paid ([paid] =
    1), and [paid] to 1 and [paid_at] to the time of the request
    otherwise ([paid] 0, NULL or anything else); every other column,
    every other row, the users and the id counter are as before.  After
    a second PATCH an expense that was paid is paid again, at the time
    of the second request, and one that was not has [paid] 0 and
    [paid_at] NULL. *)
Theorem paid_toggle
        (s : Store) (user i : Z) (now now2 : string) (e : Expense) :
  find (owned i user) (expenses s) = Some e ->
  let res := patch_paid s user i now in
  let res2 := patch_paid (fst res) user i now2 in
  status (snd res) = 200 /\
  users (fst res) = users s /\ last_id (fst res) = last_id s /\
  Forall2 (fun x x' =>
             unchanged_but_paid x x' /\
             (id x = i /\ user_id x = user ->
              (paid e = Some 1 -> paid x' = Some 0 /\ paid_at x' = None) /\
              (paid e <> Some 1 ->
               paid x' = Some 1 /\ paid_at x' = Some now)) /\
             (~ (id x = i /\ user_id x = user) -> x' = x))
          (expenses s) (expenses (fst res)) /\
  Forall2 (fun x x' =>
             unchanged_but_paid x x' /\
             (id x = i /\ user_id x = user ->
              (paid e = Some 1 ->
               paid x' = Some 1 /\ paid_at x' = Some now2) /\
              (paid e <> Some 1 -> paid x' = Some 0 /\ paid_at x' = None))
             /\
             (~ (id x = i /\ user_id x = user) -> x' = x))
          (expenses s) (expenses (fst res2)).
Proof.
  intros F res res2.
  destruct (patch_paid_rows s user i now now2 e F)
    as [Hst [Hrows [_ Hrows2]]].
  fold res in Hst, Hrows, Hrows2. fold res2 in Hrows2.
  split; [exact Hst|].
  assert (Hres : users (fst res) = users s /\ last_id (fst res) = last_id s).
  { unfold res, patch_paid. rewrite F. split; reflexivity. }
  split; [apply Hres|]. split; [apply Hres|].
  assert (Hun : forall p t x, unchanged_but_paid x (set_paid p t x)).
  { intros p t x. unfold unchanged_but_paid. simpl. tauto. }
  assert (Hsame : forall x, unchanged_but_paid x x).
  { intros x. unfold unchanged_but_paid. tauto. }
  split.
  - rewrite Hrows. apply Forall2_map_r. intros x _.
    destruct (owned i user x) eqn:E.
    + split; [apply Hun|]. split.
      * intros _. split; intros Hp; simpl.
        -- rewrite (toggled_paid _ Hp). auto.
        -- rewrite (toggled_not_paid _ Hp). auto.
      * intros Hn. exfalso. apply Hn. now apply owned_spec.
    + split; [apply Hsame|]. split; [|reflexivity].
      intros Ho. apply owned_spec in Ho. congruence.
  - rewrite Hrows2. apply Forall2_map_r. intros x _.
    destruct (owned i user x) eqn:E.
    + split; [apply Hun|]. split.
      * intros _. split; intros Hp; simpl.
        -- rewrite (toggled_paid _ Hp). auto.
        -- rewrite (toggled_not_paid _ Hp). auto.
      * intros Hn. exfalso. apply Hn. now apply owned_spec.
    + split; [apply Hsame|]. split; [|reflexivity].
      intros Ho. apply owned_spec in Ho. congruence.
Qed.

(** A paid expense (the books) and one that has never been paid (the
    rent). *)
Lemma paid_toggle_witness :
  (status (snd (patch_paid Sample.rent_and_books 1 3
                           "2024-03-05T10:00:00.000Z")) = 200 /\
   map (fun x => (paid x, paid_at x))
       (expenses (fst (patch_paid Sample.rent_and_books 1 3
                                  "2024-03-05T10:00:00.000Z")))
   = [(None, None); (Some 0, None)]) /\
  (status (snd (patch_paid Sample.rent_and_books 1 1
                           "2024-03-05T10:00:00.000Z")) = 200 /\
   map (fun x => (paid x, paid_at x))
       (expenses (fst (patch_paid Sample.rent_and_books 1 1
                                  "2024-03-05T10:00:00.000Z")))
   = [(Some 1, Some "2024-03-05T10:00:00.000Z"%string);
      (Some 1, Some "2024-03-02T09:00:00.000Z"%string)]).
Proof.
  split.
  - refine ((fun H => conj (proj1 H) eq_refl)
              (paid_toggle Sample.rent_and_books 1 3
                           "2024-03-05T10:00:00.000Z"
                           "2024-03-06T10:00:00.000Z" Sample.books _)).
    reflexivity.
  - refine ((fun H => conj (proj1 H) eq_refl)
              (paid_toggle Sample.rent_and_books 1 1
                           "2024-03-05T10:00:00.000Z"
                           "2024-03-06T10:00:00.000Z" Sample.rent _)).
    reflexivity.
Defined.

End PaidFacts.

Section CreateFacts.
Import Routes.

Lemma find_app_last (p : Expense -> bool) (l : list Expense) (e : Expense) :
  (forall x, In x l -> p x = false) -> p e = true ->
  find p (l ++ [e]) = Some e.
Proof.
  intros Hl He. induction l as [|x t IH]; simpl.
  - now rewrite He.
  - rewrite (Hl x (or_introl eq_refl)). apply IH.
    intros y Hy. apply Hl. now right.
Qed.

(** X14.  A create request that passes validation, with calendar
    dates, the reminder not after the due date, and an amount of at
    most two decimals below 10^8 (values the DATE and DECIMAL(10,2)
    columns hold as given), made when the id counter is not behind the
    table, is answered 201; the row appended has the next id of the
    counter, above every id in the table, the requester as owner, the
    trimmed name, the amount and the dates of the request, the category
    and the recurring flag of the request or ['Other'] and ['no'],
    [email_sent] 0 and no [paid_at]; and a GET of that id by the
    requester returns the row. *)
Theorem created_expense_can_be_read_back
        (paid_default : option Z) (s : Store) (user : Z) (b : Body)
        (name : string) (amt : Q) (due rem : Date) :
  validate_post b = true ->
  seq_ok s ->
  b_expense_name b = Some name ->
  b_amount b = Some amt ->
  b_due_date b = Some due ->
  b_reminder_date b = Some rem ->
  valid_date due = true ->
  valid_date rem = true ->
  decimal_10_2 amt ->
  JSDate.parse rem <= JSDate.parse due ->
  let res := post_expense paid_default s user b in
  let e := mkExpense (last_id s + 1) user (trim name) amt
                     (match b_category b with
                      | Some c => c | None => "Other"%string end)
                     due rem
                     (match b_recurring b with
                      | Some r => r | None => "no"%string end)
                     0 paid_default None in
  snd res = mkResponse 201 true "Expense created successfully" (Some e) /\
  expenses (fst res) = expenses s ++ [e] /\
  users (fst res) = users s /\
  last_id (fst res) = last_id s + 1 /\
  (forall x, In x (expenses s) -> id x < last_id s + 1) /\
  get_expense (fst res) user (last_id s + 1)
  = mkResponse 200 true "" (Some e).
Proof.
  intros Hv Hseq Hname Hamt Hdue Hrem _ _ _ Hle res e.
  assert (Hfresh : fresh_id s = last_id s + 1).
  { unfold fresh_id. unfold seq_ok in Hseq. lia. }
  assert (Hres : res
    = (mkStore (users s) (expenses s ++ [e]) (last_id s + 1),
       mkResponse 201 true "Expense created successfully" (Some e))).
  { unfold res, post_expense. rewrite Hv, Hname, Hamt, Hdue, Hrem.
    cbn [negb].
    assert (H : (JSDate.parse rem >? JSDate.parse due) = false).
    { rewrite Z.gtb_ltb. apply Z.ltb_ge. exact Hle. }
    rewrite H, Hfresh. unfold e, or_else. reflexivity. }
  rewrite Hres. cbn [fst snd expenses users last_id].
  assert (Hlt : forall x, In x (expenses s) -> id x < last_id s + 1).
  { intros x Hx. unfold seq_ok in Hseq.
    assert (Hm := max_id_ge (expenses s) (id x) (in_map id _ _ Hx)). lia. }
  repeat (split; [reflexivity|]). split; [exact Hlt|].
  unfold get_expense. cbn [expenses]. rewrite find_app_last; [reflexivity| |].
  - intros x Hx. unfold owned. specialize (Hlt x Hx).
    destruct (Z.eqb_spec (id x) (last_id s + 1)); [lia|reflexivity].
  - unfold owned, e. cbn [id user_id]. now rewrite !Z.eqb_refl.
Qed.

Lemma created_expense_can_be_read_back_witness :
  snd (post_expense None Sample.rent_only 1 Sample.water_bill)
  = mkResponse 201 true "Expense created successfully"
      (Some (mkExpense 2 1 "Water" (300 # 1) "Other"
                       (mkDate 2024 3 20) (mkDate 2024 3 18) "no" 0
                       None None)) /\
  get_expense (fst (post_expense None Sample.rent_only 1 Sample.water_bill))
              1 2
  = mkResponse 200 true ""
      (Some (mkExpense 2 1 "Water" (300 # 1) "Other"
                       (mkDate 2024 3 20) (mkDate 2024 3 18) "no" 0
                       None None)).
Proof.
  refine ((fun H => conj (proj1 H) (proj2 (proj2 (proj2 (proj2 (proj2 H))))))
            (created_expense_can_be_read_back
               None Sample.rent_only 1 Sample.water_bill
               "  Water " (300 # 1) (mkDate 2024 3 20) (mkDate 2024 3 18)
               _ _ _ _ _ _ _ _ _ _)); try reflexivity.
  - exact seq_ok_rent_only.
  - exists 30000. split; [reflexivity|lia].
  - discriminate.
Defined.



(** X16.  When the id counter is not behind the table, the id the next
    INSERT assigns after a DELETE is above every id the table held
    before the DELETE: the id of a deleted expense is not handed out
    again. *)
Theorem deleted_id_is_not_reused (s : Store) (user i : Z) (x : Expense) :
  seq_ok s ->
  In x (expenses s) ->
  id x < fresh_id (fst (delete_expense s user i)) /\
  seq_ok (fst (delete_expense s user i)).
Proof.
  intros Hseq Hx. unfold seq_ok in *.
  assert (Hm := max_id_ge (expenses s) (id x) (in_map id _ _ Hx)).
  unfold delete_expense.
  destruct (find (owned i user) (expenses s)) as [e|]; cbn [fst].
  - unfold fresh_id. cbn [last_id expenses with_expenses].
    assert (Hf : max_id (filter (fun e0 => negb (owned i user e0))
                                (expenses s)) <= max_id (expenses s)).
    { generalize (expenses s) as l. induction l as [|y t IH]; simpl; [lia|].
      destruct (negb (owned i user y)); simpl; lia. }
    lia.
  - unfold fresh_id. lia.
Qed.

Lemma deleted_id_is_not_reused_witness :
  id Sample.gym < fresh_id (fst (delete_expense Sample.rent_and_gym 1 2)).
Proof.
  apply (deleted_id_is_not_reused Sample.rent_and_gym 1 2 Sample.gym).
  - unfold seq_ok. simpl. lia.
  - simpl. auto.
Defined.

Lemma isIn_not_empty (l : list string) (c : string) :
  isIn l EmptyString = false -> isIn l c = true -> c <> EmptyString.
Proof. intros H0 Hc ->. congruence. Qed.

Lemma string_filter_spec (v : option string) (column : string) :
  (forall c, v = Some c -> c <> EmptyString) ->
  string_filter v column = true <-> (forall c, v = Some c -> column = c).
Proof.
  intros Hne. unfold string_filter. destruct v as [[|a t]|].
  - exfalso. now apply (Hne EmptyString).
  - rewrite String.eqb_eq. split.
    + intros -> c H. now injection H.
    + intros H. now apply H.
  - split; [intros _ c H; discriminate|reflexivity].
Qed.

Lemma filter_keeps_ids_distinct (keep : Expense -> bool)
      (rows : list Expense) :
  NoDup (map id rows) -> NoDup (map id (filter keep rows)).
Proof.
  induction rows as [|x t IH]; intros Hnd; cbn [filter map].
  - constructor.
  - apply NoDup_cons_iff in Hnd. destruct Hnd as [Hfresh Hnd].
    destruct (keep x); cbn [map]; [|now apply IH].
    apply NoDup_cons_iff. split; [|now apply IH].
    intros Hin. apply Hfresh.
    apply in_map_iff in Hin. destruct Hin as [z [Hz Hin]].
    apply filter_In in Hin. rewrite <- Hz. now apply in_map.
Qed.

(** X17.  A listing request that passes validation, whose first and
    last dates, when given, are calendar dates, is answered 200 with
    exactly the expenses that belong to the requester, have the
    category asked for, are due not before the first date and not after
    the last date, and have the recurring flag asked for (a filter that
    is not given excludes nothing); they are in ascending order of due
    date, their number is the count, and with unique ids none is listed
    twice. *)
Theorem list_expenses_is_exact (s : Store) (user : Z) (q : Query) :
  validate_list q = true ->
  (forall d, q_startDate q = Some d -> valid_date d = true) ->
  (forall d, q_endDate q = Some d -> valid_date d = true) ->
  let res := list_expenses s user q in
  l_status res = 200 /\
  l_count res = List.length (l_expenses res) /\
  (forall e,
      In e (l_expenses res) <->
      In e (expenses s) /\ user_id e = user /\
      (forall c, q_category q = Some c -> category e = c) /\
      (forall d, q_startDate q = Some d -> date_leb d (due_date e) = true) /\
      (forall d, q_endDate q = Some d -> date_leb (due_date e) d = true) /\
      (forall r, q_recurring q = Some r -> recurring e = r)) /\
  (NoDup (map id (expenses s)) -> NoDup (map id (l_expenses res))) /\
  StronglySorted (fun a b => date_leb (due_date a) (due_date b) = true)
                 (l_expenses res).
Proof.
  intros Hv _ _ res. unfold res, list_expenses. rewrite Hv.
  cbn [negb l_status l_count l_expenses].
  split; [reflexivity|]. split; [reflexivity|].
  unfold validate_list in Hv. rewrite !andb_true_iff in Hv.
  destruct Hv as [[[Hcat _] _] Hrec].
  assert (Hc : forall c, q_category q = Some c -> c <> EmptyString).
  { intros c Hq. rewrite Hq in Hcat. simpl in Hcat.
    now apply (isIn_not_empty CATEGORIES). }
  assert (Hr : forall r, q_recurring q = Some r -> r <> EmptyString).
  { intros r Hq. rewrite Hq in Hrec. simpl in Hrec.
    now apply (isIn_not_empty ["yes"; "no"]%string). }
  assert (Hopt : forall (f : Date -> bool) (v : option Date),
             optional f v = true <-> (forall d, v = Some d -> f d = true)).
  { intros f [d|]; simpl; split; auto.
    - intros H d' E. now injection E as <-.
    - intros _ d E. discriminate. }
  split; [|split].
  - intros e. rewrite order_by_In, filter_In. unfold list_where.
    rewrite !andb_true_iff, Z.eqb_eq.
    rewrite (string_filter_spec _ _ Hc), (string_filter_spec _ _ Hr).
    rewrite !Hopt. tauto.
  - intros Hnd.
    apply (Permutation_NoDup
             (l := map id (filter (list_where user q) (expenses s)))).
    + apply Permutation_map, order_by_perm.
    + now apply filter_keeps_ids_distinct.
  - apply (order_by_sorted due_date).
Qed.

Lemma list_expenses_is_exact_witness :
  map id (l_expenses (list_expenses Sample.rent_and_water 1
                                    Sample.bills_in_march))
  = [4; 1] /\
  l_count (list_expenses Sample.rent_and_water 1 Sample.bills_in_march)
  = List.length (l_expenses (list_expenses Sample.rent_and_water 1
                                           Sample.bills_in_march)).
Proof.
  refine ((fun H => conj eq_refl (proj1 (proj2 H)))
            (list_expenses_is_exact Sample.rent_and_water 1
                                    Sample.bills_in_march _ _ _)).
  - reflexivity.
  - intros d H. injection H as <-. reflexivity.
  - intros d H. injection H as <-. reflexivity.
Defined.

End CreateFacts.

(** ** The Brevo variant of the sender *)

Lemma or_string_not_empty (a b : option string) :
  (exists t, b = Some t /\ t <> EmptyString) ->
  exists t, BrevoService.or_string a b = Some t /\ t <> EmptyString.
Proof.
  intros Hb. unfold BrevoService.or_string.
  destruct a as [[|c t]|]; try exact Hb.
  exists (String c t). split; [reflexivity|discriminate].
Qed.

(** X18.  Called with an argument object, the Brevo variant of
    [sendReminderEmail] throws exactly when a client is set and the
    provider call throws [null] or [undefined]; otherwise it returns a
    result: a success with the result's message id exactly when the
    call resolves with a result object, and else a failure whose error
    text is never empty: ['Email service not configured'] without a
    client, and for a thrown error object its message, else the message
    of its body, else ['Unknown error']. *)
Theorem brevo_sendReminderEmail_outcomes
        (apiInstance : option (EmailArgs -> BrevoService.ApiOutcome))
        (args : EmailArgs) :
  match apiInstance with
  | None =>
      BrevoService.sendReminderEmail apiInstance (Some args)
      = Returned (mkSendResult false None
                    (Some "Email service not configured"%string))
  | Some api =>
      match api args with
      | BrevoService.Sent (Some mid) =>
          BrevoService.sendReminderEmail apiInstance (Some args)
          = Returned (mkSendResult true mid None)
      | BrevoService.Sent None =>
          exists t,
            BrevoService.sendReminderEmail apiInstance (Some args)
            = Returned (mkSendResult false None (Some t)) /\
            t <> EmptyString
      | BrevoService.Failed (Some e) =>
          BrevoService.sendReminderEmail apiInstance (Some args)
          = Returned
              (mkSendResult false None
                 (Some (match BrevoService.ae_message e,
                              BrevoService.ae_body_message e with
                        | Some (String c t), _ => String c t
                        | _, Some (String c t) => String c t
                        | _, _ => "Unknown error"%string
                        end)))
      | BrevoService.Failed None =>
          exists m,
            BrevoService.sendReminderEmail apiInstance (Some args)
            = Thrown m
      end
  end /\
  (forall result,
      BrevoService.sendReminderEmail apiInstance (Some args)
      = Returned result ->
      success result = false ->
      exists t, error result = Some t /\ t <> EmptyString).
Proof.
  unfold BrevoService.sendReminderEmail, BrevoService.try_send.
  destruct apiInstance as [api|].
  - destruct (api args) as [[mid|]|[e|]]; simpl.
    + split; [reflexivity|]. intros result H. injection H as <-.
      discriminate.
    + split.
      * eexists. split; [reflexivity|discriminate].
      * intros result H. injection H as <-. intros _.
        eexists. split; [reflexivity|discriminate].
    + split.
      * unfold BrevoService.error_text.
        destruct e as [[[|c t]|] [[|c' t']|]]; reflexivity.
      * intros result H. injection H as <-. intros _. simpl.
        unfold BrevoService.error_text.
        destruct (or_string_not_empty
                    (BrevoService.or_string (BrevoService.ae_message e)
                                            (BrevoService.ae_body_message e))
                    (Some "Unknown error"%string)) as [t [Ht Hne]].
        { eexists. split; [reflexivity|discriminate]. }
        rewrite Ht. eauto.
    + split; [eexists; reflexivity|]. intros result H. discriminate.
  - split; [reflexivity|].
    intros result H. injection H as <-. intros _.
    eexists. split; [reflexivity|discriminate].
Qed.

Lemma brevo_sendReminderEmail_outcomes_witness :
  exists t,
    error (mkSendResult false None
             (Some (BrevoService.error_text
                      (BrevoService.mkApiError
                         None (Some "quota exceeded"%string)))))
    = Some t /\ t <> EmptyString.
Proof.
  apply (proj2 (brevo_sendReminderEmail_outcomes
                  (Some (fun _ => BrevoService.Failed
                           (Some (BrevoService.mkApiError
                                    None (Some "quota exceeded"%string)))))
                  (email_args (reminder_row Sample.rent Sample.asha)))).
  - reflexivity.
  - reflexivity.
Defined.

(** ** More on the sweep and the routes *)

Lemma nth_error_split_at {A : Type} (l : list A) (n : nat) (a : A) :
  nth_error l n = Some a ->
  exists l1 l2, l = l1 ++ a :: l2 /\ List.length l1 = n.
Proof.
  revert n. induction l as [|x t IH]; intros [|n]; simpl; try discriminate.
  - intros H. injection H as ->. exists [], t. auto.
  - intros H. destruct (IH n H) as [l1 [l2 [-> Hlen]]].
    exists (x :: l1), l2. simpl. auto.
Qed.

(** X20.  With unique ids of expenses and of users, the flag of every
    item of the due set after the sweep tells how its call went: every
    row with the item's id has [email_sent] 1 if the call for the item
    reported success and 0 if it did not, whatever happened to the
    other items. *)
Theorem flag_tracks_call_outcome
        (tz : Z) (paid_default : option Z) (notify : Notifier)
        (s : Store) (today : Date) (n : nat) (r : Reminder) :
  NoDup (map id (expenses s)) ->
  NoDup (map u_id (users s)) ->
  nth_error (pendingReminders s today) n = Some r ->
  let s' := fst (processReminders tz paid_default notify s today) in
  (exists e', In e' (expenses s') /\ id e' = r_id r) /\
  (forall e', In e' (expenses s') -> id e' = r_id r ->
              email_sent e' = if succeeded notify n r then 1 else 0).
Proof.
  intros Hnd Hnu Hn s'.
  destruct (sweep_result tz paid_default notify s today) as [_ Hshape].
  fold s' in Hshape.
  assert (Hrin : In r (pendingReminders s today))
    by (eapply nth_error_In; eauto).
  assert (Hstore : forall r0, In r0 (pendingReminders s today) ->
                              In (r_id r0) (map id (expenses s))).
  { intros r0. apply pending_id_in_store. }
  destruct (proj1 (In_due_rows s today r)
                  (proj1 (In_pendingReminders s today r) Hrin))
    as [e [u [He [_ [_ [Hdue Hr]]]]]].
  assert (Hid : id e = r_id r) by (now rewrite Hr).
  split.
  { destruct Hshape as [_ [_ [extra [Hex _]]]].
    eexists. split.
    - rewrite Hex. apply in_app_iff. left. apply in_map. exact He.
    - now rewrite id_mark_all. }
  intros e' He' Hid'.
  destruct (succeeded notify n r) eqn:Hok.
  - eapply sent_rows_marked; eauto.
    rewrite Hid'. apply in_map.
    apply (nth_sent notify _ 0 n r Hn). exact Hok.
  - destruct (nth_error_split_at _ _ _ Hn) as [l1 [l2 [Hpend Hlen]]].
    assert (Hsent : sent notify 0 (pendingReminders s today)
                    = sent notify 0 l1 ++ sent notify (S n) l2).
    { rewrite Hpend, sent_app. simpl. rewrite Hlen, Hok. reflexivity. }
    assert (Honly : ~ In (r_id r)
                        (map r_id (sent notify 0 (pendingReminders s today)))).
    { assert (Hle := calls_for_due_rows_le s today (r_id r) Hnd Hnu).
      rewrite <- calls_for_pending, Hpend, calls_for_app, length_app in Hle.
      unfold calls_for at 2 in Hle. simpl in Hle.
      rewrite Z.eqb_refl in Hle. simpl in Hle.
      fold (calls_for (r_id r) l2) in Hle.
      assert (H1 : ~ In (r_id r) (map r_id l1)).
      { apply calls_for_nil_iff. lia. }
      assert (H2 : ~ In (r_id r) (map r_id l2)).
      { apply calls_for_nil_iff. lia. }
      rewrite Hsent, map_app, in_app_iff.
      intros [H|H]; apply in_map_iff in H; destruct H as [r0 [Hid0 H0]];
        apply sent_incl in H0; [apply H1|apply H2];
        rewrite <- Hid0; now apply in_map. }
    assert (Hold : In e' (expenses s)).
    { eapply unsent_rows_kept; eauto.
      - rewrite Hid'. now apply Hstore.
      - now rewrite Hid'. }
    assert (e' = e) by (eapply nodup_id_inj; eauto; congruence).
    subst e'. unfold is_due in Hdue. apply andb_true_iff in Hdue.
    now apply Z.eqb_eq.
Qed.

Lemma flag_tracks_call_outcome_witness :
  let s' := fst (processReminders 0 None (Sample.fails_for "Gym")
                                  Sample.rent_and_gym (mkDate 2024 3 10)) in
  (forall e', In e' (expenses s') -> id e' = 2 -> email_sent e' = 0) /\
  (forall e', In e' (expenses s') -> id e' = 1 -> email_sent e' = 1).
Proof.
  intros s'. split.
  - apply (flag_tracks_call_outcome
             0 None (Sample.fails_for "Gym") Sample.rent_and_gym
             (mkDate 2024 3 10) 0 (reminder_row Sample.gym Sample.asha)).
    + repeat constructor; simpl; intuition discriminate.
    + repeat constructor; simpl; tauto.
    + reflexivity.
  - apply (flag_tracks_call_outcome
             0 None (Sample.fails_for "Gym") Sample.rent_and_gym
             (mkDate 2024 3 10) 1 (reminder_row Sample.rent Sample.asha)).
    + repeat constructor; simpl; intuition discriminate.
    + repeat constructor; simpl; tauto.
    + reflexivity.
Defined.

(** X21.  When no expense of the store is marked paid ([paid] is 0 or
    NULL in every row), the diagnostic query and the due-set query of
    the sweep select the same expenses on every day. *)
Theorem pending_query_agrees_when_nothing_is_paid
        (s : Store) (today : Date) (i : Z) :
  (forall e, In e (expenses s) -> not_paid e = true) ->
  In i (map p_id (pending_reminders_query s today)) <->
  In i (map r_id (pendingReminders s today)).
Proof.
  intros Hnp. rewrite !in_map_iff. split.
  - intros [p [Hid Hp]].
    apply (order_by_In p_reminder_date), In_pending_rows in Hp.
    destruct Hp as [e [u [He [Hu [Huid [Hpend ->]]]]]].
    apply is_pending_spec in Hpend. destruct Hpend as [Hdue _].
    exists (reminder_row e u). split; [exact Hid|].
    apply In_pendingReminders, In_due_rows. exists e, u. auto.
  - intros [r [Hid Hr]].
    apply In_pendingReminders, In_due_rows in Hr.
    destruct Hr as [e [u [He [Hu [Huid [Hdue ->]]]]]].
    exists (pending_row e u). split; [exact Hid|].
    apply (order_by_In p_reminder_date), In_pending_rows.
    exists e, u. repeat split; auto.
    apply is_pending_spec. auto.
Qed.

Lemma pending_query_agrees_when_nothing_is_paid_witness :
  In 4 (map p_id (pending_reminders_query Sample.rent_and_water
                                          (mkDate 2024 3 11))) <->
  In 4 (map r_id (pendingReminders Sample.rent_and_water
                                   (mkDate 2024 3 11))).
Proof.
  apply (pending_query_agrees_when_nothing_is_paid
           Sample.rent_and_water (mkDate 2024 3 11) 4).
  intros e [<-|[<-|[]]]; reflexivity.
Defined.

Section UpdateFacts.
Import Routes.

Lemma owned_apply_updates (i user : Z) (b : Body) (e : Expense) :
  owned i user (apply_updates b e) = owned i user e.
Proof. reflexivity. Qed.

(** X22.  An update for an expense of the requesting user that passes
    validation and names at least one field, whose dates, when given,
    are calendar dates and whose amount, when given, has at most two
    decimals and is below 10^8 (values the DATE and DECIMAL(10,2)
    columns hold as given), is answered 200 with the row as updated:
    each field of the body in place (the name trimmed), each column the
    body does not name as it was, [email_sent] 0 if the body has a
    reminder date and as it was if not, id, owner, [paid] and [paid_at]
    as they were; and a GET of the id by the requester returns that same
    row. *)
Theorem updated_expense_can_be_read_back
        (s : Store) (user i : Z) (b : Body) (e : Expense) :
  validate_put b = true ->
  no_updates b = false ->
  find (owned i user) (expenses s) = Some e ->
  (forall d, b_due_date b = Some d -> valid_date d = true) ->
  (forall d, b_reminder_date b = Some d -> valid_date d = true) ->
  (forall a, b_amount b = Some a -> decimal_10_2 a) ->
  let res := put_expense s user i b in
  exists e',
    snd res = mkResponse 200 true "Expense updated successfully" (Some e') /\
    get_expense (fst res) user i = mkResponse 200 true "" (Some e') /\
    id e' = id e /\ user_id e' = user_id e /\
    expense_name e' = match b_expense_name b with
                      | Some n => trim n | None => expense_name e end /\
    amount e' = match b_amount b with
                | Some a => a | None => amount e end /\
    category e' = match b_category b with
                  | Some c => c | None => category e end /\
    due_date e' = match b_due_date b with
                  | Some d => d | None => due_date e end /\
    reminder_date e' = match b_reminder_date b with
                       | Some d => d | None => reminder_date e end /\
    recurring e' = match b_recurring b with
                   | Some r => r | None => recurring e end /\
    email_sent e' = match b_reminder_date b with
                    | Some _ => 0 | None => email_sent e end /\
    paid e' = paid e /\ paid_at e' = paid_at e.
Proof.
  intros Hv Hn F _ _ _ res.
  exists (apply_updates b e).
  unfold res. rewrite (put_expense_accepted s user i b e Hv Hn F).
  cbn [fst snd]. unfold get_expense. cbn [expenses with_expenses].
  rewrite find_owned_map by (intros; apply owned_apply_updates).
  rewrite F. unfold apply_updates, or_else. cbn.
  repeat split.
Qed.

Lemma updated_expense_can_be_read_back_witness :
  exists e',
    get_expense (fst (put_expense Sample.rent_notified 1 1
                                  Sample.remind_on_12th)) 1 1
    = mkResponse 200 true "" (Some e') /\
    reminder_date e' = mkDate 2024 3 12 /\ email_sent e' = 0 /\
    due_date e' = mkDate 2024 3 15.
Proof.
  destruct (updated_expense_can_be_read_back
              Sample.rent_notified 1 1 Sample.remind_on_12th
              (set_email_sent 1 Sample.rent))
    as [e' [_ [Hget [_ [_ [_ [_ [_ [Hd [Hr [_ [Hf _]]]]]]]]]]]];
    try reflexivity.
  - intros d H. discriminate.
  - intros d H. injection H as <-. reflexivity.
  - intros a H. discriminate.
  - exists e'. auto.
Defined.

End UpdateFacts.
